(** * tabasco: time based source control

    A shallow embedding of [tabasco.py] (classes [Monitor] and [SC]) and the
    properties of its change detector, snapshot store, commit resolver,
    revert and remove operations.

    Modelling conventions.
    - A Python [str] is a [string]; [sorted] on strings is a merge sort for
      the lexicographic order on character codes.
    - A directory is the list of its entries (name, node) in [os.listdir]
      order; copying a file or a tree copies the node.
    - The tree is that of the monitored directory, and paths are taken from
      its top. Where the directory lies matters to one call only, the
      [glob.glob] of [SC._clear_working_directory], which reads the path of
      the directory as part of its pattern; an [SC] object carries that path
      (see [folder]). What lies outside the directory is not in the tree.
    - The two [shelve] databases [.tbsc/versions] and [.tbsc/last] are kept
      beside the tree as the maps they hold; opening one needs the directory
      [.tbsc] to exist, and is otherwise taken to succeed.
    - A naive [datetime] is the record of its calendar fields; a [timedelta]
      is its exact number of microseconds, and [total_seconds] the exact
      rational (the source gets the nearest float).
    - Exceptions are values of [exn]; a method is a function from the world
      to an outcome and the world it leaves behind, so the writes made before
      an exception stay made. *)

From Stdlib Require Import List String Ascii Bool ZArith QArith Lia.
From Stdlib Require Import Permutation Sorted Orders Mergesort.
From Stdlib Require Import DecimalString.
Import ListNotations.

Local Open Scope string_scope.
Local Open Scope list_scope.

(** ** Strings *)

(** [s.startswith(p)] *)
Definition startswith (s p : string) : bool := String.prefix p s.

(** [sub in s] *)
Fixpoint contains (sub s : string) : bool :=
  String.prefix sub s ||
  match s with
  | EmptyString => false
  | String _ s' => contains sub s'
  end.

(** [glob.has_magic(s)]: [s] holds one of the pattern characters of glob. *)
Definition has_magic (s : string) : bool :=
  contains "*" s || contains "?" s || contains "[" s.

(** [glob] does not let the pattern [*] match a name that begins with a dot. *)
Definition ishidden (filename : string) : bool := String.prefix "." filename.

Module StringOrder <: TotalLeBool.
Definition t := string.
Definition leb := String.leb.
Definition leb_total := String.leb_total.
End StringOrder.

Module StringSort := Sort StringOrder.

(** [sorted(l)] for a list of strings *)
Definition sorted (l : list string) : list string := StringSort.sort l.

(** [l.index(x)]: the position of the first element equal to [x];
    [None] stands for [ValueError]. *)
Fixpoint index (x : string) (l : list string) : option nat :=
  match l with
  | [] => None
  | y :: l' => if String.eqb y x then Some O else option_map S (index x l')
  end.

(** ** Dates *)

Record datetime : Type := mkDatetime {
  year : Z; month : Z; day : Z;
  hour : Z; minute : Z; second : Z; microsecond : Z
}.

Definition is_leap (y : Z) : bool :=
  (y mod 4 =? 0)%Z && (negb (y mod 100 =? 0)%Z || (y mod 400 =? 0)%Z).

Definition days_before_year (y : Z) : Z :=
  let p := (y - 1)%Z in (p * 365 + p / 4 - p / 100 + p / 400)%Z.

Definition days_before_month (y m : Z) : Z :=
  (nth (Z.to_nat m) [0; 0; 31; 59; 90; 120; 151; 181; 212; 243; 273; 304; 334] 0
   + (if (2 <? m)%Z && is_leap y then 1 else 0))%Z.

Definition toordinal (d : datetime) : Z :=
  (days_before_year (year d) + days_before_month (year d) (month d) + day d)%Z.

(** [a - b] as a timedelta, in microseconds *)
Definition datetime_sub (a b : datetime) : Z :=
  ((toordinal a - toordinal b) * 86400000000
   + ((hour a * 3600 + minute a * 60 + second a)
      - (hour b * 3600 + minute b * 60 + second b)) * 1000000
   + (microsecond a - microsecond b))%Z.

(** [timedelta.total_seconds()] *)
Definition total_seconds (delta : Z) : Q := delta # 1000000.

Definition digits (n : Z) : string := NilZero.string_of_uint (N.to_uint (Z.to_N n)).

Definition two_digits (n : Z) : string :=
  if (n <? 10)%Z then "0" ++ digits n else digits n.

(** [now.strftime("%Y.%m.%d - %H.%M.%S")] *)
Definition strftime (now : datetime) : string :=
  digits (year now) ++ "." ++ two_digits (month now) ++ "."
  ++ two_digits (day now) ++ " - " ++ two_digits (hour now) ++ "."
  ++ two_digits (minute now) ++ "." ++ two_digits (second now).

(** ** Files, directories and the two databases *)

#[warning="-register-all"]
Inductive node : Type :=
| File (data : string)
| Dir (entries : list (string * node)).

Definition listing : Type := list (string * node).

Definition lookup {A : Type} (key : string) (d : list (string * A)) : option A :=
  option_map snd (find (fun e => String.eqb (fst e) key) d).

Definition delete {A : Type} (key : string) (d : list (string * A))
  : list (string * A) :=
  filter (fun e => negb (String.eqb (fst e) key)) d.

(** [d[key] = x]: the binding of an existing key is replaced where it is,
    a new key is added at the end. *)
Fixpoint store {A : Type} (key : string) (x : A) (d : list (string * A))
  : list (string * A) :=
  match d with
  | [] => [(key, x)]
  | (k, y) :: d' =>
      if String.eqb k key then (k, x) :: d' else (k, y) :: store key x d'
  end.

Inductive exn : Type :=
| IndexError (msg : string)
| KeyError (key : string)
| ValueError
| TypeError
| AttributeError
| OSError
| FileExistsError
| FileNotFoundError
| NotADirectoryError
| IsADirectoryError
| RuntimeError (msg : string).

Inductive outcome (A : Type) : Type :=
| Return (a : A)
| Raise (e : exn).

Arguments Return {A} a.
Arguments Raise {A} e.

(** The node at a path, given by its components below the root; a missing
    component is [FileNotFoundError], a file used as a directory is
    [NotADirectoryError]. *)
Fixpoint stat (path : list string) (n : node) {struct path} : outcome node :=
  match path with
  | [] => Return n
  | c :: rest =>
      match n with
      | Dir es =>
          match lookup c es with
          | Some child => stat rest child
          | None => Raise FileNotFoundError
          end
      | File _ => Raise NotADirectoryError
      end
  end.

(** The tree with the entries of the directory at [path] changed by [f];
    [None] when there is no such directory. *)
Fixpoint modify (path : list string) (f : listing -> listing) (n : node)
  {struct path} : option node :=
  match n with
  | File _ => None
  | Dir es =>
      match path with
      | [] => Some (Dir (f es))
      | c :: rest =>
          match lookup c es with
          | Some child =>
              match modify rest f child with
              | Some child' => Some (Dir (store c child' es))
              | None => None
              end
          | None => None
          end
      end
  end.

Record Version : Type := mkVersion {
  checksum : string;
  time : datetime;
  name : string
}.

(** The shelf [.tbsc/last]: each of its three keys may be missing. *)
Record Last : Type := mkLast {
  last_checksum : option string;
  last_time : option datetime;
  last_name : option string
}.

Definition no_last : Last := mkLast None None None.

Record world : Type := mkWorld {
  directory : listing;
  versions_file : list (string * Version);
  last_file : Last
}.


(** ** Methods as state transformers that may raise *)

Definition M (A : Type) : Type := world -> outcome A * world.

Definition ret {A : Type} (a : A) : M A := fun w => (Return a, w).

Definition raise {A : Type} (e : exn) : M A := fun w => (Raise e, w).

Definition bind {A B : Type} (m : M A) (k : A -> M B) : M B :=
  fun w =>
    match m w with
    | (Return a, w') => k a w'
    | (Raise e, w') => (Raise e, w')
    end.

Notation "x <- m ;; k" := (bind m (fun x => k))
  (at level 61, m at next level, right associativity).
Notation "m ;; k" := (bind m (fun _ => k))
  (at level 61, right associativity).

(** [if c: m] without an [else] *)
Definition when (c : bool) (m : M unit) : M unit := if c then m else ret tt.

(** [for x in l: body(x)] *)
Fixpoint for_each {A : Type} (l : list A) (body : A -> M unit) : M unit :=
  match l with
  | [] => ret tt
  | x :: l' => body x ;; for_each l' body
  end.

(** [[f(x) for x in l]] *)
Fixpoint collect {A B : Type} (l : list A) (f : A -> M B) : M (list B) :=
  match l with
  | [] => ret []
  | x :: l' => y <- f x ;; ys <- collect l' f ;; ret (y :: ys)
  end.

(** [try: m  except FileExistsError: handler] *)
Definition except_FileExistsError {A : Type} (m handler : M A) : M A :=
  fun w =>
    match m w with
    | (Raise FileExistsError, w') => handler w'
    | r => r
    end.

(** *** The file system calls the program makes *)

Definition root (w : world) : node := Dir (directory w).

Definition os_stat (path : list string) : M node :=
  fun w => (stat path (root w), w).

Definition exists_ (path : list string) : M bool :=
  fun w => (Return match stat path (root w) with
                   | Return _ => true
                   | Raise _ => false
                   end, w).

Definition is_file (path : list string) : M bool :=
  fun w => (Return match stat path (root w) with
                   | Return (File _) => true
                   | _ => false
                   end, w).

Definition is_dir (path : list string) : M bool :=
  fun w => (Return match stat path (root w) with
                   | Return (Dir _) => true
                   | _ => false
                   end, w).

Definition listdir (path : list string) : M (list string) :=
  n <- os_stat path ;;
  match n with
  | Dir es => ret (map fst es)
  | File _ => raise NotADirectoryError
  end.

(** Change the entries of the directory at [parent]. *)
Definition change (parent : list string) (f : listing -> listing) : M unit :=
  n <- os_stat parent ;;
  match n with
  | File _ => raise NotADirectoryError
  | Dir _ =>
      fun w =>
        match modify parent f (root w) with
        | Some (Dir es) =>
            (Return tt, mkWorld es (versions_file w) (last_file w))
        | _ => (Raise FileNotFoundError, w)
        end
  end.

(** [os.mkdir(parent/c)] *)
Definition os_mkdir (parent : list string) (c : string) : M unit :=
  n <- os_stat parent ;;
  match n with
  | File _ => raise NotADirectoryError
  | Dir es =>
      match lookup c es with
      | Some _ => raise FileExistsError
      | None => change parent (fun es => es ++ [(c, Dir [])])
      end
  end.

(** [Path.mkdir(parents=True)] and [os.makedirs]: the components of [todo]
    below the directory [done], the missing ones created in turn; the last
    one must be new. *)
Fixpoint makedirs (done todo : list string) : M unit :=
  match todo with
  | [] => raise FileExistsError
  | [c] => os_mkdir done c
  | c :: rest =>
      e <- exists_ (done ++ [c]) ;;
      when (negb e) (os_mkdir done c) ;;
      makedirs (done ++ [c]) rest
  end.

(** Put node [n] under the name [c] in the directory at [parent]. *)
Definition write (parent : list string) (c : string) (n : node) : M unit :=
  change parent (store c n).

(** [os.remove(parent/c)] and [shutil.rmtree(parent/c)] *)
Definition unlink (parent : list string) (c : string) : M unit :=
  change parent (delete c).

(** [shutil.copy2(src/c, dst)]: into the directory [dst] under the same
    name when [dst] is a directory, onto the path [dst] itself otherwise. *)
Definition copy2 (src : list string) (c : string) (dst : list string) : M unit :=
  n <- os_stat (src ++ [c]) ;;
  match n with
  | Dir _ => raise IsADirectoryError
  | File data =>
      d <- is_dir dst ;;
      let target := if d then dst ++ [c] else dst in
      t <- is_dir target ;;
      if t then raise IsADirectoryError
      else write (removelast target) (last target c) (File data)
  end.

(** [shutil.copytree(src, dst_parent/c)]: the destination must be new. *)
Definition copytree (src dst_parent : list string) (c : string) : M unit :=
  n <- os_stat src ;;
  match n with
  | File _ => raise NotADirectoryError
  | Dir es =>
      makedirs [] (dst_parent ++ [c]) ;;
      write dst_parent c (Dir es)
  end.

(** The directory of an [SC] object, [self.directory], as [glob.glob] meets
    it: the string [str(self.directory)] and, for a string that holds
    pattern characters, how many of the directories that the string finds
    when read as a pattern are the directory itself. A directory named
    [proj[v2]] is found by the pattern [proj[v2]] zero times, one named
    [proj*] once; a path through [..] can find its directory several
    times. *)
Record folder : Type := mkFolder {
  folder_path : string;
  pattern_hits : nat
}.

(** What [glob.glob(os.path.join(str(self.directory), '*'))] lists of the
    directory whose entries have the names [names]. The pattern ['*'] takes
    the names that do not begin with a dot. When the path of the directory
    holds no pattern character these are listed once. When it holds one,
    glob reads the path as a pattern too and lists such names for every
    directory the pattern finds: for this directory once for each time it is
    found, for the others paths outside the tree, left out here. *)
Definition glob_names (self : folder) (names : list string) : list string :=
  let visible := filter (fun filename => negb (ishidden filename)) names in
  if has_magic (folder_path self)
  then List.concat (repeat visible (pattern_hits self))
  else visible.

(** [glob.glob(os.path.join(str(self.directory), '*'))], as names *)
Definition glob_star (self : folder) : M (list string) :=
  names <- listdir [] ;;
  ret (glob_names self names).

(** [shelve.open] of a file of [.tbsc] *)
Definition shelve_open : M unit :=
  d <- is_dir [".tbsc"] ;;
  if d then ret tt else raise OSError.

Definition get_versions : M (list (string * Version)) :=
  fun w => (Return (versions_file w), w).

Definition put_versions (db : list (string * Version)) : M unit :=
  fun w => (Return tt, mkWorld (directory w) db (last_file w)).

Definition get_last : M Last :=
  fun w => (Return (last_file w), w).

Definition put_last (l : Last) : M unit :=
  fun w => (Return tt, mkWorld (directory w) (versions_file w) l).

(** [db[key]] *)
Definition getitem (key : string) : M Version :=
  db <- get_versions ;;
  match lookup key db with
  | Some v => ret v
  | None => raise (KeyError key)
  end.

(** ** class Monitor *)

Module Monitor.

(** [Monitor._commit(version_directory)]: copy everything to the
    destination except for tabasco files. *)
Definition _commit (version_directory : list string) : M unit :=
  e <- exists_ version_directory ;;
  when (negb e) (makedirs [] version_directory) ;;
  filenames <- listdir [] ;;
  for_each filenames (fun filename =>
    if contains ".tbsc" filename then ret tt
    else
      f <- is_file [filename] ;;
      if f then copy2 [] filename version_directory
      else
        d <- is_dir [filename] ;;
        when d (copytree [filename] version_directory filename)).

(** [Monitor._backup(now, checksum)] *)
Definition _backup (now : datetime) (checksum : string) : M unit :=
  shelve_open ;;
  let version_name := strftime now in
  versions <- get_versions ;;
  put_versions (store version_name (mkVersion checksum now version_name) versions) ;;
  let version_directory := [".tbsc"; version_name] in
  _commit version_directory.

(** [Monitor._should_backup(now, checksum)] for a monitor of the given
    [frequency]. *)
Definition _should_backup (frequency : Z) (now : datetime) (checksum : string)
  : M bool :=
  shelve_open ;;
  last <- get_last ;;
  let last_checksum := last_checksum last in
  let last_access_time := last_time last in
  match last_checksum, last_access_time with
  | None, None => ret true
  | _, None => raise TypeError
  | _, Some t =>
      let is_old :=
        Qle_bool (inject_Z frequency) (total_seconds (datetime_sub now t)) in
      let is_outdated :=
        match last_checksum with
        | Some c => negb (String.eqb checksum c)
        | None => true
        end in
      ret (is_old && is_outdated)
  end.

(** [Monitor._update_time_and_hash(now, checksum)] *)
Definition _update_time_and_hash (now : datetime) (checksum : string) : M unit :=
  let version_name := strftime now in
  shelve_open ;;
  put_last (mkLast (Some checksum) (Some now) (Some version_name)).

(** [Monitor.run(date, _checksum)], with [now] and [checksum] what the two
    [or] expressions give. *)
Definition run (frequency : Z) (now : datetime) (checksum : string) : M unit :=
  e <- exists_ [".tbsc"] ;;
  when (negb e) (os_mkdir [] ".tbsc") ;;
  b <- _should_backup frequency now checksum ;;
  when b
    (_update_time_and_hash now checksum ;;
     except_FileExistsError (_backup now checksum)
       (raise (RuntimeError
          "Commit failed - a commit with the same name already exists."))).

End Monitor.

(** ** class SC *)

Module SC.

(** [SC.versions]: list all versions from the database. *)
Definition versions : M (list Version) :=
  shelve_open ;;
  db <- get_versions ;;
  collect (map fst db) getitem.

(** [SC._version_by_commit_checksum(commit)]; [Return None] is a call that
    falls off the end of the function. *)
Definition _version_by_commit_checksum (commit : string) : M (option Version) :=
  vs <- versions ;;
  let checksums := map checksum vs in
  let checksums := checksums ++ [commit] in
  let checksums := sorted checksums in
  match index commit checksums with
  | None => raise ValueError
  | Some i =>
      match nth_error checksums (i + 1) with
      | None => raise (IndexError "list index out of range")
      | Some candidate_checksum =>
          if negb (startswith candidate_checksum commit)
          then raise (IndexError "No such commit.")
          else
            vs' <- versions ;;
            ret (find (fun version =>
                         String.eqb (checksum version) candidate_checksum) vs')
      end
  end.

(** [SC._clear_working_directory()] *)
Definition _clear_working_directory (self : folder) : M unit :=
  paths <- glob_star self ;;
  for_each paths (fun path =>
    d <- is_dir [path] ;;
    when d (unlink [] path) ;;
    f <- is_file [path] ;;
    when f (unlink [] path)).

(** [SC._copy_to_working_directory(version_path)] *)
Definition _copy_to_working_directory (version_path : list string) : M unit :=
  names <- listdir version_path ;;
  for_each names (fun name =>
    f <- is_file (version_path ++ [name]) ;;
    if f then copy2 version_path name []
    else
      d <- is_dir (version_path ++ [name]) ;;
      when d (copytree (version_path ++ [name]) [] name)).

(** [SC.apply(commit)] *)
Definition apply (self : folder) (commit : string) : M unit :=
  version <- _version_by_commit_checksum commit ;;
  match version with
  | None => raise AttributeError
  | Some version =>
      let version_path := [".tbsc"; name version] in
      _clear_working_directory self ;;
      _copy_to_working_directory version_path
  end.

(** [SC.remove(commit)]: delete a version. *)
Definition remove (commit : string) : M unit :=
  version <- _version_by_commit_checksum commit ;;
  shelve_open ;;
  db <- get_versions ;;
  for_each (map fst db) (fun key =>
    v <- getitem key ;;
    match version with
    | None => raise AttributeError
    | Some version =>
        when (String.eqb (checksum v) (checksum version))
          (db' <- get_versions ;; put_versions (delete key db'))
    end).

End SC.

(** ** class Manager *)

(** The host of the registry: the file system the directories to monitor
    are in, and the shelf [monitored_folders.pickle.rick] of the tabasco
    folder, from [str(directory)] to the time of registration. The shelf is
    kept beside the files as the map it holds; opening it needs the tabasco
    folder, which [Manager.__init__] makes, to be a directory. *)
Record host : Type := mkHost {
  files : listing;
  monitored_folders : list (string * datetime)
}.

Module Manager.

(** [str(directory)], for a path given by its components *)
Definition str (directory : list string) : string :=
  String.concat "/" directory.

(** [shelve.open(str(self.db_path))] *)
Definition db_open (tabasco_folder : list string) (h : host) : outcome unit :=
  match stat tabasco_folder (Dir (files h)) with
  | Return (Dir _) => Return tt
  | _ => Raise OSError
  end.

(** [Manager.monitor(directory, date)]: add a directory to the monitored
    directories; [date] is what [date or datetime.datetime.now()] gives. *)
Definition monitor (tabasco_folder directory : list string) (date : datetime)
  (h : host) : outcome unit * host :=
  match stat directory (Dir (files h)) with
  | Raise _ => (Raise FileNotFoundError, h)
  | Return (File _) => (Raise NotADirectoryError, h)
  | Return (Dir _) =>
      match db_open tabasco_folder h with
      | Raise e => (Raise e, h)
      | Return _ =>
          match lookup (str directory) (monitored_folders h) with
          | Some _ => (Raise FileExistsError, h)
          | None =>
              (Return tt,
               mkHost (files h)
                 (store (str directory) date (monitored_folders h)))
          end
      end
  end.

(** [Manager.unmonitor(directory)]: remove a directory from the monitored
    directories. *)
Definition unmonitor (tabasco_folder directory : list string) (h : host)
  : outcome unit * host :=
  match db_open tabasco_folder h with
  | Raise e => (Raise e, h)
  | Return _ =>
      match lookup (str directory) (monitored_folders h) with
      | None => (Raise (KeyError (str directory)), h)
      | Some _ =>
          (Return tt,
           mkHost (files h) (delete (str directory) (monitored_folders h)))
      end
  end.

(** [list(manager)]: what [Manager.__iter__] yields *)
Definition iter (tabasco_folder : list string) (h : host)
  : outcome (list (string * datetime)) :=
  match db_open tabasco_folder h with
  | Raise e => Raise e
  | Return _ => Return (monitored_folders h)
  end.

End Manager.

(** ** Sample worlds

    Two commits of a tree that holds one file, as in the test suite. *)

Definition noon : datetime := mkDatetime 2017 3 5 12 0 0 0.

Definition noon4 : datetime := mkDatetime 2017 3 5 12 0 4 0.

Definition fresh_tree : world := mkWorld [("FILE", File "x")] [] no_last.

Definition one_commit : world := snd (Monitor.run 1 noon "Hello" fresh_tree).

Definition two_commits : world := snd (Monitor.run 1 noon4 "Hello2" one_commit).

(** A tree that holds one directory, committed once. *)
Definition folder_tree : world := mkWorld [("FOLDER", Dir [])] [] no_last.

Definition folder_commit : world := snd (Monitor.run 1 noon "Hello" folder_tree).

(** The world in which [Monitor.run] takes its decision: the metadata
    directory has been created when it was missing. *)
Definition prepared (w : world) : world :=
  snd ((e <- exists_ [".tbsc"] ;; when (negb e) (os_mkdir [] ".tbsc")) w).

(** The tree reverts to its first state and is committed a third time. *)
Definition noon8 : datetime := mkDatetime 2017 3 5 12 0 8 0.

Definition three_commits : world := snd (Monitor.run 1 noon8 "Hello" two_commits).

(** A tree with a user file whose name contains [.tbsc]. *)
Definition notes_tree : world :=
  mkWorld [("notes.tbsc.txt", File "n"); ("FILE", File "x")] [] no_last.

(** What is at a path, if anything. *)
Definition peek_in (path : list string) (n : node) : option node :=
  match stat path n with
  | Return x => Some x
  | Raise _ => None
  end.

Definition peek (path : list string) (w : world) : option node :=
  peek_in path (root w).

(** After the first commit a hidden file and a visible file are added. *)
Definition dotfile_world : world :=
  mkWorld (directory one_commit ++ [(".env", File "secret"); ("BADFILE", File "")])
    (versions_file one_commit) (last_file one_commit).

(** A tree with a hidden file, committed once, and the hidden file changed
    afterwards. *)
Definition env_tree : world :=
  mkWorld [(".env", File "secret"); ("FILE", File "x")] [] no_last.

Definition env_commit : world := snd (Monitor.run 1 noon "Hello" env_tree).

Definition env_changed : world :=
  mkWorld (store ".env" (File "changed") (directory env_commit))
    (versions_file env_commit) (last_file env_commit).

(** A second check in the second of the first commit. *)
Definition noon_and_a_half : datetime := mkDatetime 2017 3 5 12 0 0 500000.

(** A tree with a hidden directory, committed once. *)
Definition git_tree : world :=
  mkWorld [(".git", Dir [("HEAD", File "ref")]); ("FILE", File "x")] [] no_last.

Definition git_commit : world := snd (Monitor.run 1 noon "Hello" git_tree).

(** The record of the first commit is there, its snapshot copy is not. *)
Definition lost_snapshot : world :=
  mkWorld [("FILE", File "y"); (".tbsc", Dir [])]
    (versions_file one_commit) (last_file one_commit).

(** The directory of the test suite, and one whose name reads as a pattern
    that the name itself does not match. *)
Definition temp : folder := mkFolder "temp" 1.

Definition bracket_folder : folder := mkFolder "proj[v2]" 0.

(** A host with a tabasco folder and a directory to monitor, as in the
    test suite. *)
Definition temp_host : host :=
  mkHost [(".tbsc.temp", Dir []); ("temp", Dir []); ("README", File "r")] [].

(** ** Vocabulary of the properties *)

(** The order [sorted] sorts by. *)
Definition le_string (x y : string) : Prop := is_true (String.leb x y).

(** The metadata directory is there. *)
Definition tabasco_directory_exists (w : world) : Prop :=
  exists es, lookup ".tbsc" (directory w) = Some (Dir es).

(** [preserves f m]: running [m] does not change the observation [f] of the
    world, whether [m] returns or raises. *)
Definition preserves {A X : Type} (f : world -> X) (m : M A) : Prop :=
  forall w, f (snd (m w)) = f w.

(** An observation that does not look at the tree. *)
Definition tree_blind {X : Type} (f : world -> X) : Prop :=
  forall w es, f (mkWorld es (versions_file w) (last_file w)) = f w.

(** The revert as the specification words it: once the prefix resolves to a
    version with a snapshot copy, [apply] leaves the metadata directory as
    it was and, under every other name, what the snapshot holds under it. *)
Definition restores_snapshot_exactly (self : folder) (w : world) (p : string)
  : Prop :=
  forall v snap,
    SC._version_by_commit_checksum p w = (Return (Some v), w) ->
    peek [".tbsc"; name v] w = Some (Dir snap) ->
    lookup ".tbsc" (directory (snd (SC.apply self p w)))
    = lookup ".tbsc" (directory w) /\
    forall filename, filename <> ".tbsc" ->
      lookup filename (directory (snd (SC.apply self p w)))
      = lookup filename snap.

(** What [_clear_working_directory] leaves of the entries [d]. *)
Definition cleared (self : folder) (d : listing) : listing :=
  fold_left (fun d path => delete path d) (glob_names self (map fst d)) d.

(** The entry [e] of a snapshot can be copied into a directory with the
    entries [d]: a file goes where there is no directory of its name, a
    directory where there is nothing of its name. *)
Definition fits (d : listing) (e : string * node) : Prop :=
  match snd e with
  | File _ => forall es, lookup (fst e) d <> Some (Dir es)
  | Dir _ => lookup (fst e) d = None
  end.

(** The entries [d] with those of a snapshot copied over them. *)
Definition copied_over (snap d : listing) : listing :=
  fold_left (fun d e => store (fst e) (snd e) d) snap d.

(** [within R m]: running [m] takes a world to one related to it by [R],
    whether [m] returns or raises. *)
Definition within {A : Type} (R : world -> world -> Prop) (m : M A) : Prop :=
  forall w, R w (snd (m w)).

(** The second world has the working files of the first: the same entry
    under every top-level name but [.tbsc], and a metadata directory if the
    first has one. *)
Definition same_working_files (w w' : world) : Prop :=
  (forall filename, filename <> ".tbsc" ->
     lookup filename (directory w') = lookup filename (directory w)) /\
  (tabasco_directory_exists w -> tabasco_directory_exists w').

(** The second world has the directory of the first under the top-level
    name [c], when the first has one there. *)
Definition keeps_directory (c : string) (w w' : world) : Prop :=
  forall es, lookup c (directory w) = Some (Dir es) ->
             lookup c (directory w') = Some (Dir es).

(** One record per name, each stored under its own name. *)
Definition well_formed_log (db : list (string * Version)) : Prop :=
  NoDup (map fst db) /\ forall k v, In (k, v) db -> name v = k.

(** The working directory [dir] with the snapshot [acc] under the name [v]
    in its metadata directory, whose other entries are those of [meta]. *)
Definition with_snapshot (dir meta : listing) (v : string) (acc : listing)
  : listing :=
  store ".tbsc" (Dir (store v (Dir acc) meta)) dir.

(** The entries a commit copies. *)
Definition committed (dir : listing) : listing :=
  filter (fun e => negb (contains ".tbsc" (fst e))) dir.

(** * Properties *)

(** ** The order on strings and prefixes *)

Lemma ascii_compare_refl (a : ascii) : Ascii.compare a a = Eq.
Proof. unfold Ascii.compare. apply N.compare_refl. Qed.

Lemma string_compare_refl (s : string) : String.compare s s = Eq.
Proof.
  induction s as [|a s IH]; simpl; [reflexivity|].
  now rewrite ascii_compare_refl.
Qed.

Lemma leb_refl (s : string) : String.leb s s = true.
Proof. unfold String.leb. now rewrite string_compare_refl. Qed.

Lemma ascii_compare_eq (a b : ascii) : Ascii.compare a b = Eq <-> a = b.
Proof.
  split; [apply Ascii.compare_eq_iff|].
  intros ->. apply ascii_compare_refl.
Qed.

Lemma leb_cons (a b : ascii) (s t : string) :
  String.leb (String a s) (String b t) = true <->
  (N_of_ascii a < N_of_ascii b)%N \/ (a = b /\ String.leb s t = true).
Proof.
  unfold String.leb. simpl.
  destruct (Ascii.compare a b) eqn:E.
  - apply ascii_compare_eq in E. subst b. split.
    + intros H. right. split; [reflexivity|exact H].
    + intros [H|[_ H]]; [lia|exact H].
  - unfold Ascii.compare in E. apply N.compare_lt_iff in E.
    split; [intros _; now left|reflexivity].
  - unfold Ascii.compare in E. apply N.compare_gt_iff in E. split.
    + discriminate.
    + intros [H|[H _]]; [lia|subst b; lia].
Qed.

Lemma leb_nil_l (s : string) : String.leb EmptyString s = true.
Proof. now destruct s. Qed.

Lemma leb_nil_r (s : string) : String.leb s EmptyString = true -> s = EmptyString.
Proof. destruct s; [reflexivity|discriminate]. Qed.

Lemma leb_trans (s1 s2 s3 : string) :
  String.leb s1 s2 = true -> String.leb s2 s3 = true -> String.leb s1 s3 = true.
Proof.
  revert s2 s3.
  induction s1 as [|a s1 IH]; intros s2 s3 H12 H23; [apply leb_nil_l|].
  destruct s2 as [|b s2]; [discriminate|].
  destruct s3 as [|c s3]; [discriminate|].
  apply leb_cons in H12. apply leb_cons in H23. apply leb_cons.
  destruct H12 as [H12|[-> H12]], H23 as [H23|[-> H23]].
  - left. lia.
  - now left.
  - now left.
  - right. split; [reflexivity|]. eapply IH; eassumption.
Qed.

Lemma prefix_cons (a b : ascii) (p s : string) :
  String.prefix (String a p) (String b s) = true <->
  a = b /\ String.prefix p s = true.
Proof.
  simpl. destruct (ascii_dec a b) as [E|E].
  - split; [now intros H|now intros [_ H]].
  - split; [discriminate|now intros [H _]].
Qed.

(** A string is at most each string it is a prefix of. *)
Lemma prefix_leb (p s : string) :
  String.prefix p s = true -> String.leb p s = true.
Proof.
  revert s. induction p as [|a p IH]; intros s H; [apply leb_nil_l|].
  destruct s as [|b s]; [discriminate|].
  apply prefix_cons in H. destruct H as [-> H].
  apply leb_cons. right. split; [reflexivity|]. now apply IH.
Qed.

(** The strings that begin with [p] are an interval that starts at [p]. *)
Lemma prefix_between (p t s : string) :
  String.leb p t = true -> String.leb t s = true ->
  String.prefix p s = true -> String.prefix p t = true.
Proof.
  revert t s. induction p as [|a p IH]; intros t s Hpt Hts Hps.
  - now destruct t.
  - destruct s as [|c s]; [discriminate|].
    destruct t as [|b t]; [discriminate|].
    apply prefix_cons in Hps. destruct Hps as [-> Hps].
    apply leb_cons in Hpt. apply leb_cons in Hts. apply prefix_cons.
    destruct Hpt as [Hpt|[-> Hpt]], Hts as [Hts|[E Hts]];
      try lia; try (subst; lia).
    split; [reflexivity|]. eapply IH; eassumption.
Qed.

Lemma prefix_refl (s : string) : String.prefix s s = true.
Proof.
  induction s as [|a s IH]; [reflexivity|].
  apply prefix_cons. now split.
Qed.

(** ** Sorted lists of strings *)

Lemma sorted_StronglySorted (l : list string) :
  StronglySorted le_string (sorted l).
Proof.
  apply StringSort.StronglySorted_sort.
  intros x y z Hxy Hyz. exact (leb_trans x y z Hxy Hyz).
Qed.

Lemma sorted_Permutation (l : list string) : Permutation l (sorted l).
Proof. apply StringSort.Permuted_sort. Qed.

(** [index] finds the first occurrence. *)
Lemma index_split (x : string) (l : list string) (i : nat) :
  index x l = Some i ->
  exists l1 l2, l = l1 ++ x :: l2 /\ List.length l1 = i /\ ~ In x l1.
Proof.
  revert i. induction l as [|y l IH]; intros i H; [discriminate|].
  simpl in H. destruct (String.eqb_spec y x) as [->|Hne].
  - injection H as <-. exists [], l. simpl. auto.
  - destruct (index x l) as [j|] eqn:E; [|discriminate].
    injection H as <-.
    destruct (IH j eq_refl) as (l1 & l2 & -> & Hlen & Hnot).
    exists (y :: l1), l2. simpl. repeat split; [congruence|].
    intros [H|H]; [now apply Hne|now apply Hnot].
Qed.

Lemma index_In (x : string) (l : list string) :
  In x l -> exists i, index x l = Some i.
Proof.
  induction l as [|y l IH]; intros H; [contradiction|].
  simpl. destruct (String.eqb_spec y x) as [->|Hne]; [now exists O|].
  destruct H as [H|H]; [contradiction|].
  destruct (IH H) as [i ->]. now exists (S i).
Qed.

Lemma StronglySorted_app_inv (l1 l2 : list string) :
  StronglySorted le_string (l1 ++ l2) ->
  StronglySorted le_string l2 /\
  forall x y, In x l1 -> In y l2 -> le_string x y.
Proof.
  induction l1 as [|a l1 IH]; simpl; intros H.
  - split; [exact H|contradiction].
  - inversion H as [|? ? Hs Hall]; subst.
    destruct (IH Hs) as [H2 Hle]. split; [exact H2|].
    intros x y [<-|Hx] Hy.
    + rewrite Forall_forall in Hall. apply Hall, in_or_app. now right.
    + now apply Hle.
Qed.

(** Where the requested string stands among the sorted checksums: the
    stored checksums strictly below it come before its first occurrence, the
    others after. *)
Lemma sorted_around (cs : list string) (p : string) :
  exists l1 l2,
    sorted (cs ++ [p]) = l1 ++ p :: l2 /\
    index p (sorted (cs ++ [p])) = Some (List.length l1) /\
    Permutation cs (l1 ++ l2) /\
    (forall x, In x l1 -> le_string x p /\ x <> p) /\
    (forall x, In x l2 -> le_string p x) /\
    StronglySorted le_string l2.
Proof.
  assert (Hin : In p (sorted (cs ++ [p]))).
  { eapply Permutation_in; [apply sorted_Permutation|].
    apply in_or_app. right. now left. }
  destruct (index_In _ _ Hin) as [i Hi].
  destruct (index_split _ _ _ Hi) as (l1 & l2 & Hl & Hlen & Hnot).
  exists l1, l2. rewrite Hi, Hlen.
  pose proof (sorted_StronglySorted (cs ++ [p])) as Hs. rewrite Hl in Hs.
  destruct (StronglySorted_app_inv _ _ Hs) as [Hs2 Hle].
  inversion Hs2 as [|? ? Hs2' Hall]; subst.
  repeat split; auto.
  - apply Permutation_app_inv_r with (l := [p]).
    eapply Permutation_trans; [apply sorted_Permutation|].
    rewrite Hl. rewrite <- app_assoc.
    apply Permutation_app_head. simpl. apply Permutation_cons_append.
  - apply Hle; [assumption|now left].
  - intros ->. now apply Hnot.
  - intros x Hx. rewrite Forall_forall in Hall. now apply Hall.
Qed.

Lemma nth_error_after (l1 l2 : list string) (p : string) :
  nth_error (l1 ++ p :: l2) (List.length l1 + 1) = nth_error l2 0.
Proof.
  rewrite nth_error_app2 by lia.
  replace (List.length l1 + 1 - List.length l1)%nat with 1%nat by lia. reflexivity.
Qed.

(** The element that follows the requested string is the least stored
    checksum that is not below it. *)
Lemma successor_least (cs : list string) (p c : string) (i : nat) :
  index p (sorted (cs ++ [p])) = Some i ->
  nth_error (sorted (cs ++ [p])) (i + 1) = Some c ->
  In c cs /\ le_string p c /\ forall x, In x cs -> le_string p x -> le_string c x.
Proof.
  destruct (sorted_around cs p) as (l1 & l2 & Hl & Hi & Hperm & H1 & H2 & Hs).
  rewrite Hi. intros [= <-]. rewrite Hl, nth_error_after.
  destruct l2 as [|c' l2]; [discriminate|]. intros [= ->].
  split; [|split].
  - eapply Permutation_in; [apply Permutation_sym, Hperm|].
    apply in_or_app. right. now left.
  - apply H2. now left.
  - intros x Hx Hpx.
    apply (Permutation_in _ Hperm) in Hx. apply in_app_or in Hx.
    destruct Hx as [Hx|[<-|Hx]].
    + destruct (H1 x Hx) as [Hxp Hne]. exfalso. apply Hne.
      now apply String.leb_antisym.
    + apply leb_refl.
    + inversion Hs as [|? ? _ Hall]; subst.
      rewrite Forall_forall in Hall. now apply Hall.
Qed.

(** When nothing follows the requested string, every stored checksum is
    strictly below it. *)
Lemma successor_none (cs : list string) (p : string) (i : nat) :
  index p (sorted (cs ++ [p])) = Some i ->
  nth_error (sorted (cs ++ [p])) (i + 1) = None ->
  forall x, In x cs -> le_string x p /\ x <> p.
Proof.
  destruct (sorted_around cs p) as (l1 & l2 & Hl & Hi & Hperm & H1 & H2 & Hs).
  rewrite Hi. intros [= <-]. rewrite Hl, nth_error_after.
  destruct l2 as [|c' l2]; [|discriminate]. intros _ x Hx.
  apply (Permutation_in _ Hperm) in Hx. rewrite app_nil_r in Hx.
  now apply H1.
Qed.

Lemma index_sorted_total (cs : list string) (p : string) :
  exists i, index p (sorted (cs ++ [p])) = Some i.
Proof.
  destruct (sorted_around cs p) as (l1 & _ & _ & Hi & _). eauto.
Qed.

(** ** Running a method *)

Lemma bind_Return {A B : Type} (m : M A) (k : A -> M B) (w w' : world) (a : A) :
  m w = (Return a, w') -> bind m k w = k a w'.
Proof. unfold bind. now intros ->. Qed.

Lemma bind_Raise {A B : Type} (m : M A) (k : A -> M B) (w w' : world) (e : exn) :
  m w = (Raise e, w') -> bind m k w = (Raise e, w').
Proof. unfold bind. now intros ->. Qed.

Lemma shelve_open_ok (w : world) :
  tabasco_directory_exists w -> shelve_open w = (Return tt, w).
Proof.
  intros [es H]. unfold shelve_open, bind, is_dir, root. simpl. now rewrite H.
Qed.

Lemma shelve_open_same (w : world) : snd (shelve_open w) = w.
Proof.
  unfold shelve_open, bind, is_dir. simpl.
  now destruct (lookup ".tbsc" (directory w)) as [[|]|].
Qed.

Lemma lookup_In_fst {A : Type} (key : string) (d : list (string * A)) :
  In key (map fst d) -> exists x, lookup key d = Some x.
Proof.
  unfold lookup. induction d as [|[k y] d IH]; simpl; [contradiction|].
  intros [->|H].
  - rewrite String.eqb_refl. simpl. eauto.
  - destruct (String.eqb k key); simpl; eauto.
Qed.

Lemma collect_getitem (w : world) (keys : list string) :
  incl keys (map fst (versions_file w)) ->
  exists vs, collect keys getitem w = (Return vs, w).
Proof.
  induction keys as [|k keys IH]; intros Hincl; simpl.
  - now exists [].
  - destruct (lookup_In_fst k (versions_file w)) as [v Hv].
    { apply Hincl. now left. }
    destruct IH as [vs Hvs]. { intros x Hx. apply Hincl. now right. }
    exists (v :: vs). unfold bind at 1. unfold getitem at 1.
    unfold bind at 1. unfold get_versions at 1. rewrite Hv. unfold ret at 1.
    unfold bind. now rewrite Hvs.
Qed.

(** Listing the versions returns and writes nothing, once the metadata
    directory is there. *)
Lemma versions_total (w : world) :
  tabasco_directory_exists w -> exists vs, SC.versions w = (Return vs, w).
Proof.
  intros H. unfold SC.versions.
  rewrite (bind_Return _ _ _ _ _ (shelve_open_ok w H)).
  unfold bind at 1. unfold get_versions at 1.
  apply collect_getitem. apply incl_refl.
Qed.

Lemma find_checksum (vs : list Version) (c : string) :
  In c (map checksum vs) ->
  exists v, find (fun version => String.eqb (checksum version) c) vs = Some v.
Proof.
  induction vs as [|v vs IH]; simpl; [contradiction|].
  intros [<-|H].
  - rewrite String.eqb_refl. eauto.
  - destruct (String.eqb (checksum v) c); eauto.
Qed.

(** ** The commit resolver *)

Lemma resolve_run (w : world) (vs : list Version) (p : string) :
  SC.versions w = (Return vs, w) ->
  SC._version_by_commit_checksum p w =
  match index p (sorted (map checksum vs ++ [p])) with
  | None => (Raise ValueError, w)
  | Some i =>
      match nth_error (sorted (map checksum vs ++ [p])) (i + 1) with
      | None => (Raise (IndexError "list index out of range"), w)
      | Some c =>
          if startswith c p
          then (Return (find (fun x => String.eqb (checksum x) c) vs), w)
          else (Raise (IndexError "No such commit."), w)
      end
  end.
Proof.
  intros Hvs. unfold SC._version_by_commit_checksum.
  rewrite (bind_Return _ _ _ _ _ Hvs).
  destruct (index p (sorted (map checksum vs ++ [p]))) as [i|]; [|reflexivity].
  destruct (nth_error (sorted (map checksum vs ++ [p])) (i + 1)) as [c|];
    [|reflexivity].
  destruct (startswith c p); simpl; [|reflexivity].
  now rewrite (bind_Return _ _ _ _ _ Hvs).
Qed.

(** Without a stored checksum that starts with the prefix, the resolver
    raises [IndexError] and writes nothing. *)
Lemma resolve_unmatched (w : world) (vs : list Version) (p : string) :
  SC.versions w = (Return vs, w) ->
  (forall v, In v vs -> startswith (checksum v) p = false) ->
  exists msg,
    SC._version_by_commit_checksum p w = (Raise (IndexError msg), w).
Proof.
  intros Hvs Hnone. rewrite (resolve_run w vs p Hvs).
  destruct (index_sorted_total (map checksum vs) p) as [i Hi]. rewrite Hi.
  destruct (nth_error (sorted (map checksum vs ++ [p])) (i + 1))
    as [c|] eqn:Hnth; [|now exists "list index out of range"].
  destruct (successor_least _ _ _ _ Hi Hnth) as (Hin & _).
  apply in_map_iff in Hin. destruct Hin as (v & <- & Hv).
  rewrite (Hnone v Hv). now exists "No such commit.".
Qed.

(** C1. Let [vs] be the versions the store lists. [_version_by_commit_checksum p]
    returns a version exactly when some stored checksum starts with [p]; the
    version it returns is the first listed one whose checksum is the least
    stored checksum that starts with [p], which is [p] itself when [p] is a
    stored checksum; when no stored checksum starts with [p] it raises
    [IndexError], the exception the program uses for a commit that does not
    exist.  No outcome writes anything. *)
Theorem resolve_least_match (w : world) (vs : list Version) (p : string) :
  SC.versions w = (Return vs, w) ->
  ((exists v, In v vs /\ startswith (checksum v) p = true) ->
   exists v,
     SC._version_by_commit_checksum p w = (Return (Some v), w) /\
     find (fun x => String.eqb (checksum x) (checksum v)) vs = Some v /\
     In v vs /\
     startswith (checksum v) p = true /\
     (forall v', In v' vs -> startswith (checksum v') p = true ->
        le_string (checksum v) (checksum v')) /\
     ((exists v', In v' vs /\ checksum v' = p) -> checksum v = p))
  /\
  ((forall v, In v vs -> startswith (checksum v) p = false) ->
   exists msg,
     SC._version_by_commit_checksum p w = (Raise (IndexError msg), w))
  /\
  ((exists r, SC._version_by_commit_checksum p w = (Return r, w)) <->
   (exists v, In v vs /\ startswith (checksum v) p = true)).
Proof.
  intros Hvs.
  assert (Hmatched :
    (exists v, In v vs /\ startswith (checksum v) p = true) ->
    exists v,
      SC._version_by_commit_checksum p w = (Return (Some v), w) /\
      find (fun x => String.eqb (checksum x) (checksum v)) vs = Some v /\
      In v vs /\
      startswith (checksum v) p = true /\
      (forall v', In v' vs -> startswith (checksum v') p = true ->
         le_string (checksum v) (checksum v')) /\
      ((exists v', In v' vs /\ checksum v' = p) -> checksum v = p)).
  { intros (v0 & Hv0 & Hs0). unfold startswith in *.
    pose proof (prefix_leb _ _ Hs0) as Hle0.
    rewrite (resolve_run w vs p Hvs).
    destruct (index_sorted_total (map checksum vs) p) as [i Hi]. rewrite Hi.
    destruct (nth_error (sorted (map checksum vs ++ [p])) (i + 1))
      as [c|] eqn:Hnth.
    - destruct (successor_least _ _ _ _ Hi Hnth) as (Hin & Hpc & Hleast).
      assert (Hc0 : le_string c (checksum v0)).
      { apply Hleast; [now apply in_map|exact Hle0]. }
      unfold startswith. rewrite (prefix_between p c (checksum v0) Hpc Hc0 Hs0).
      destruct (find_checksum vs c Hin) as [v Hfind].
      pose proof (find_some _ _ Hfind) as [Hv Hc].
      apply String.eqb_eq in Hc. exists v. rewrite Hfind, Hc.
      repeat split; auto.
      + exact (prefix_between p c (checksum v0) Hpc Hc0 Hs0).
      + intros v' Hv' Hs'. apply Hleast;
          [now apply in_map|now apply prefix_leb].
      + intros (v' & Hv' & <-). apply String.leb_antisym; [|exact Hpc].
        apply Hleast; [now apply in_map|apply leb_refl].
    - destruct (successor_none _ _ _ Hi Hnth (checksum v0)) as [Hle Hne];
        [now apply in_map|].
      exfalso. apply Hne. now apply String.leb_antisym. }
  split; [exact Hmatched|]. split; [now apply resolve_unmatched|].
  split.
  - intros [r Hr].
    destruct (existsb (fun v => startswith (checksum v) p) vs) eqn:Eex.
    + apply existsb_exists in Eex. exact Eex.
    + destruct (resolve_unmatched w vs p Hvs) as [msg Hmsg]; [|congruence].
      intros v Hv. apply not_true_is_false. intros Hs.
      apply not_true_iff_false in Eex. apply Eex, existsb_exists. eauto.
  - intros Hex. destruct (Hmatched Hex) as (v & Hv & _). eauto.
Qed.

Lemma resolve_least_match_witness :
  SC.versions two_commits
  = (Return (map snd (versions_file two_commits)), two_commits) /\
  exists v,
    SC._version_by_commit_checksum "H" two_commits
    = (Return (Some v), two_commits) /\
    checksum v = "Hello".
Proof.
  split; [reflexivity|].
  destruct (resolve_least_match two_commits
              (map snd (versions_file two_commits)) "H" eq_refl)
    as [Hsome _].
  destruct Hsome as (v & Hv & _ & _ & _ & Hleast & _).
  { exists (mkVersion "Hello" noon "2017.03.05 - 12.00.00").
    split; [now left|reflexivity]. }
  exists v. split; [exact Hv|].
  apply String.leb_antisym.
  - apply (Hleast (mkVersion "Hello" noon "2017.03.05 - 12.00.00"));
      [now left|reflexivity].
  - vm_compute in Hv. injection Hv as <-. reflexivity.
Defined.

(** ** What a method leaves alone *)

Section Frame.

Context {X : Type} (f : world -> X).

Lemma preserves_ret {A : Type} (a : A) : preserves f (ret a).
Proof. intros w. reflexivity. Qed.

Lemma preserves_raise {A : Type} (e : exn) : preserves f (@raise A e).
Proof. intros w. reflexivity. Qed.

Lemma preserves_bind {A B : Type} (m : M A) (k : A -> M B) :
  preserves f m -> (forall a, preserves f (k a)) -> preserves f (bind m k).
Proof.
  intros Hm Hk w. unfold bind. specialize (Hm w).
  destruct (m w) as [[a|e] w']; simpl in *.
  - now rewrite Hk.
  - exact Hm.
Qed.

Lemma preserves_when (c : bool) (m : M unit) :
  preserves f m -> preserves f (when c m).
Proof. intros H. destruct c; [exact H|apply preserves_ret]. Qed.

Lemma preserves_for_each {A : Type} (l : list A) (body : A -> M unit) :
  (forall x, preserves f (body x)) -> preserves f (for_each l body).
Proof.
  intros H. induction l as [|x l IH]; simpl.
  - apply preserves_ret.
  - apply preserves_bind; auto.
Qed.

Lemma preserves_collect {A B : Type} (l : list A) (g : A -> M B) :
  (forall x, preserves f (g x)) -> preserves f (collect l g).
Proof.
  intros H. induction l as [|x l IH]; simpl.
  - apply preserves_ret.
  - apply preserves_bind; [apply H|]. intros y.
    apply preserves_bind; [exact IH|]. intros ys. apply preserves_ret.
Qed.

Lemma preserves_except {A : Type} (m handler : M A) :
  preserves f m -> preserves f handler ->
  preserves f (except_FileExistsError m handler).
Proof.
  intros Hm Hh w. unfold except_FileExistsError. specialize (Hm w).
  destruct (m w) as [[a|e] w']; simpl in *; [exact Hm|].
  destruct e; simpl; try exact Hm. now rewrite Hh.
Qed.

Lemma preserves_os_stat (path : list string) : preserves f (os_stat path).
Proof. intros w. reflexivity. Qed.

Lemma preserves_exists (path : list string) : preserves f (exists_ path).
Proof. intros w. reflexivity. Qed.

Lemma preserves_is_file (path : list string) : preserves f (is_file path).
Proof. intros w. reflexivity. Qed.

Lemma preserves_is_dir (path : list string) : preserves f (is_dir path).
Proof. intros w. reflexivity. Qed.

Lemma preserves_get_versions : preserves f get_versions.
Proof. intros w. reflexivity. Qed.

Lemma preserves_get_last : preserves f get_last.
Proof. intros w. reflexivity. Qed.

End Frame.

Create HintDb frame discriminated.

#[local] Hint Resolve preserves_ret preserves_raise preserves_os_stat
  preserves_exists preserves_is_file preserves_is_dir preserves_get_versions
  preserves_get_last : frame.

(** Split a method along its [bind]s, loops and case distinctions, and close
    the calls with the facts collected in the database [frame]. *)
Ltac frame :=
  repeat first
    [ solve [auto with frame]
    | lazymatch goal with
      | |- preserves _ (bind _ _) => apply preserves_bind; [|intros ?]
      | |- preserves _ (when _ _) => apply preserves_when
      | |- preserves _ (for_each _ _) => apply preserves_for_each; intros ?
      | |- preserves _ (collect _ _) => apply preserves_collect; intros ?
      | |- preserves _ (except_FileExistsError _ _) => apply preserves_except
      | |- preserves _ (match ?x with _ => _ end) => destruct x
      end ].

Lemma preserves_listdir {X : Type} (f : world -> X) (path : list string) :
  preserves f (listdir path).
Proof. unfold listdir. frame. Qed.

Lemma preserves_shelve_open {X : Type} (f : world -> X) :
  preserves f shelve_open.
Proof. unfold shelve_open. frame. Qed.

Lemma preserves_getitem {X : Type} (f : world -> X) (key : string) :
  preserves f (getitem key).
Proof. unfold getitem. frame. Qed.

#[local] Hint Resolve preserves_listdir preserves_shelve_open
  preserves_getitem : frame.

Lemma preserves_glob_star {X : Type} (f : world -> X) (self : folder) :
  preserves f (glob_star self).
Proof. unfold glob_star. frame. Qed.

Lemma preserves_versions {X : Type} (f : world -> X) : preserves f SC.versions.
Proof. unfold SC.versions. frame. Qed.

#[local] Hint Resolve preserves_glob_star preserves_versions : frame.

(** Resolving a prefix only reads. *)
Lemma preserves_resolve {X : Type} (f : world -> X) (commit : string) :
  preserves f (SC._version_by_commit_checksum commit).
Proof. unfold SC._version_by_commit_checksum. frame. Qed.

#[local] Hint Resolve preserves_resolve : frame.

Lemma tree_blind_versions_file : tree_blind versions_file.
Proof. intros w es. reflexivity. Qed.

Lemma tree_blind_last_file : tree_blind last_file.
Proof. intros w es. reflexivity. Qed.

#[local] Hint Resolve tree_blind_versions_file tree_blind_last_file : frame.

(** The file system calls write to the tree only. *)
Section TreeWrites.

Context {X : Type} (f : world -> X) (Hblind : tree_blind f).

Lemma preserves_change (parent : list string) (g : listing -> listing) :
  preserves f (change parent g).
Proof.
  unfold change. apply preserves_bind; [frame|]. intros [data|es]; [frame|].
  intros w. destruct (modify parent g (root w)) as [[|]|]; simpl; auto.
Qed.

Lemma preserves_os_mkdir (parent : list string) (c : string) :
  preserves f (os_mkdir parent c).
Proof. unfold os_mkdir. frame. apply preserves_change. Qed.

Lemma preserves_makedirs (todo done : list string) :
  preserves f (makedirs done todo).
Proof.
  revert done. induction todo as [|c [|c' rest] IH]; intros done.
  - simpl. frame.
  - simpl. apply preserves_os_mkdir.
  - change (makedirs done (c :: c' :: rest))
      with (e <- exists_ (done ++ [c]) ;;
            when (negb e) (os_mkdir done c) ;;
            makedirs (done ++ [c]) (c' :: rest)).
    frame; first [apply preserves_os_mkdir|apply IH].
Qed.

Lemma preserves_write (parent : list string) (c : string) (n : node) :
  preserves f (write parent c n).
Proof. apply preserves_change. Qed.

Lemma preserves_unlink (parent : list string) (c : string) :
  preserves f (unlink parent c).
Proof. apply preserves_change. Qed.

Lemma preserves_copy2 (src : list string) (c : string) (dst : list string) :
  preserves f (copy2 src c dst).
Proof. unfold copy2. frame. apply preserves_write. Qed.

Lemma preserves_copytree (src dst_parent : list string) (c : string) :
  preserves f (copytree src dst_parent c).
Proof.
  unfold copytree. frame;
    first [apply preserves_makedirs|apply preserves_write].
Qed.

(** The copy of a commit writes to neither database. *)
Lemma preserves_commit (version_directory : list string) :
  preserves f (Monitor._commit version_directory).
Proof.
  unfold Monitor._commit. frame;
    first [apply preserves_makedirs|apply preserves_copy2
          |apply preserves_copytree].
Qed.

Lemma preserves_clear (self : folder) :
  preserves f (SC._clear_working_directory self).
Proof. unfold SC._clear_working_directory. frame; apply preserves_unlink. Qed.

Lemma preserves_copy_back (version_path : list string) :
  preserves f (SC._copy_to_working_directory version_path).
Proof.
  unfold SC._copy_to_working_directory. frame;
    first [apply preserves_copy2|apply preserves_copytree].
Qed.

End TreeWrites.

(** Writing a database leaves the tree and the other database alone. *)
Lemma put_versions_directory (db : list (string * Version)) :
  preserves directory (put_versions db).
Proof. intros w. reflexivity. Qed.

Lemma put_versions_last_file (db : list (string * Version)) :
  preserves last_file (put_versions db).
Proof. intros w. reflexivity. Qed.

Lemma put_last_directory (l : Last) : preserves directory (put_last l).
Proof. intros w. reflexivity. Qed.

Lemma put_last_versions_file (l : Last) : preserves versions_file (put_last l).
Proof. intros w. reflexivity. Qed.

#[local] Hint Resolve put_versions_directory put_versions_last_file
  put_last_directory put_last_versions_file : frame.

Lemma backup_last_file (now : datetime) (c : string) :
  preserves last_file (Monitor._backup now c).
Proof.
  unfold Monitor._backup. frame.
  apply preserves_commit, tree_blind_last_file.
Qed.

(** ** The change detector *)

Lemma should_backup_reads (frequency : Z) (now : datetime) (c : string) :
  preserves (fun w => w) (Monitor._should_backup frequency now c).
Proof. unfold Monitor._should_backup. frame. Qed.

(** C3. With a last commit on record, [_should_backup] returns, and returns
    true exactly when the seconds elapsed since that commit are at least the
    frequency and the checksum differs from the recorded one: an unchanged
    checksum never commits, a changed one commits only once the frequency
    has elapsed. *)
Theorem should_backup_old_and_outdated
  (frequency : Z) (now : datetime) (c : string) (w : world)
  (c0 : string) (t0 : datetime) :
  tabasco_directory_exists w ->
  last_checksum (last_file w) = Some c0 ->
  last_time (last_file w) = Some t0 ->
  exists b,
    Monitor._should_backup frequency now c w = (Return b, w) /\
    (b = true <->
     (inject_Z frequency <= total_seconds (datetime_sub now t0))%Q /\ c <> c0) /\
    (c = c0 -> b = false) /\
    ((total_seconds (datetime_sub now t0) < inject_Z frequency)%Q -> b = false) /\
    (c <> c0 ->
     (inject_Z frequency <= total_seconds (datetime_sub now t0))%Q -> b = true).
Proof.
  intros Hdir Hc Ht.
  assert (Hiff : forall b,
    b = Qle_bool (inject_Z frequency) (total_seconds (datetime_sub now t0))
        && negb (String.eqb c c0) ->
    (b = true <->
     (inject_Z frequency <= total_seconds (datetime_sub now t0))%Q /\ c <> c0)).
  { intros b ->.
    rewrite andb_true_iff, Qle_bool_iff, negb_true_iff, String.eqb_neq.
    reflexivity. }
  eexists. split; [|split; [apply Hiff; reflexivity|]].
  - unfold Monitor._should_backup.
    rewrite (bind_Return _ _ _ _ _ (shelve_open_ok w Hdir)).
    unfold bind, get_last. rewrite Hc, Ht. reflexivity.
  - split; [|split].
    + intros ->. rewrite String.eqb_refl. apply andb_false_r.
    + intros Hlt. apply andb_false_iff. left.
      apply not_true_is_false. rewrite Qle_bool_iff.
      now apply Qlt_not_le.
    + intros Hne Hle. apply (Hiff _ eq_refl). now split.
Qed.

Lemma should_backup_old_and_outdated_witness :
  tabasco_directory_exists one_commit /\
  Monitor._should_backup 1 noon4 "Hello2" one_commit = (Return true, one_commit).
Proof.
  assert (Hdir : tabasco_directory_exists one_commit).
  { eexists. vm_compute. reflexivity. }
  split; [exact Hdir|].
  destruct (should_backup_old_and_outdated 1 noon4 "Hello2" one_commit
              "Hello" noon Hdir eq_refl eq_refl)
    as (b & Hrun & _ & _ & _ & Htrue).
  rewrite Hrun. f_equal. f_equal. apply Htrue.
  - discriminate.
  - vm_compute. discriminate.
Defined.

(** C7. Without a recorded checksum and a recorded time, [_should_backup]
    returns true, whatever the time and the checksum. *)
Theorem should_backup_first_time
  (frequency : Z) (now : datetime) (c : string) (w : world) :
  tabasco_directory_exists w ->
  last_checksum (last_file w) = None ->
  last_time (last_file w) = None ->
  Monitor._should_backup frequency now c w = (Return true, w).
Proof.
  intros Hdir Hc Ht. unfold Monitor._should_backup.
  rewrite (bind_Return _ _ _ _ _ (shelve_open_ok w Hdir)).
  unfold bind, get_last. rewrite Hc, Ht. reflexivity.
Qed.

Lemma should_backup_first_time_witness :
  tabasco_directory_exists (prepared fresh_tree) /\
  Monitor._should_backup 300 noon "Hello" (prepared fresh_tree)
  = (Return true, prepared fresh_tree).
Proof.
  assert (Hdir : tabasco_directory_exists (prepared fresh_tree)).
  { eexists. vm_compute. reflexivity. }
  split; [exact Hdir|].
  apply (should_backup_first_time 300 noon "Hello" _ Hdir); reflexivity.
Defined.

(** The first lines of [run] return, and leave both databases alone. *)
Lemma prepared_returns (w : world) :
  (e <- exists_ [".tbsc"] ;; when (negb e) (os_mkdir [] ".tbsc")) w
  = (Return tt, prepared w).
Proof.
  unfold prepared, bind, exists_, os_mkdir, change, bind, os_stat, root. simpl.
  destruct (lookup ".tbsc" (directory w)) eqn:E; simpl; [reflexivity|].
  rewrite E. reflexivity.
Qed.

Lemma prepared_last_file (w : world) : last_file (prepared w) = last_file w.
Proof.
  unfold prepared.
  apply (preserves_bind last_file); [frame|]. intros e.
  apply preserves_when, preserves_os_mkdir, tree_blind_last_file.
Qed.

Lemma update_writes_last (now : datetime) (c : string) (w : world) :
  tabasco_directory_exists w ->
  Monitor._update_time_and_hash now c w
  = (Return tt,
     mkWorld (directory w) (versions_file w)
       (mkLast (Some c) (Some now) (Some (strftime now)))).
Proof.
  intros Hdir. unfold Monitor._update_time_and_hash.
  rewrite (bind_Return _ _ _ _ _ (shelve_open_ok w Hdir)). reflexivity.
Qed.

Lemma should_backup_needs_directory
  (frequency : Z) (now : datetime) (c : string) (w : world) (b : bool) (w' : world) :
  Monitor._should_backup frequency now c w = (Return b, w') ->
  tabasco_directory_exists w.
Proof.
  unfold Monitor._should_backup, shelve_open, bind, is_dir, root. simpl.
  destruct (lookup ".tbsc" (directory w)) as [[data|es]|] eqn:E;
    simpl; try discriminate.
  intros _. now exists es.
Qed.

(** C4. [run] writes the last commit state only on a check that decides to
    commit, and then it writes the new checksum and time before the copy is
    made: whatever the copy does afterwards, returning or raising, the state
    [run] leaves behind records them. *)
Theorem run_last_file (frequency : Z) (now : datetime) (c : string) (w : world) :
  last_file (snd (Monitor.run frequency now c w)) =
  match fst (Monitor._should_backup frequency now c (prepared w)) with
  | Return true => mkLast (Some c) (Some now) (Some (strftime now))
  | _ => last_file w
  end.
Proof.
  unfold Monitor.run.
  change (e <- exists_ [".tbsc"] ;;
          when (negb e) (os_mkdir [] ".tbsc") ;;
          b <- Monitor._should_backup frequency now c ;;
          when b
            (Monitor._update_time_and_hash now c ;;
             except_FileExistsError (Monitor._backup now c)
               (raise (RuntimeError
                  "Commit failed - a commit with the same name already exists."))))
    with (bind (e <- exists_ [".tbsc"] ;; when (negb e) (os_mkdir [] ".tbsc"))
            (fun _ =>
               b <- Monitor._should_backup frequency now c ;;
               when b
                 (Monitor._update_time_and_hash now c ;;
                  except_FileExistsError (Monitor._backup now c)
                    (raise (RuntimeError
                       "Commit failed - a commit with the same name already exists."))))).
  rewrite (bind_Return _ _ _ _ _ (prepared_returns w)).
  pose proof (should_backup_reads frequency now c (prepared w)) as Hsame.
  unfold bind at 1.
  destruct (Monitor._should_backup frequency now c (prepared w))
    as [[b|e] w1] eqn:Hdec; simpl in Hsame; subst w1; simpl.
  - destruct b; simpl; [|apply prepared_last_file].
    pose proof (should_backup_needs_directory _ _ _ _ _ _ Hdec) as Hdir.
    rewrite (bind_Return _ _ _ _ _ (update_writes_last now c _ Hdir)).
    set (w2 := mkWorld _ _ _).
    change (mkLast (Some c) (Some now) (Some (strftime now)))
      with (last_file w2).
    apply (preserves_except last_file); [apply backup_last_file|frame].
  - apply prepared_last_file.
Qed.

(** A check that decides to commit and whose copy fails: the commit of the
    same second meets the directory copied by the first one, [run] raises,
    and the last commit state holds the new checksum. *)
Lemma failed_copy_keeps_new_last :
  exists w',
    Monitor.run 0 noon "World" folder_commit
    = (Raise (RuntimeError
         "Commit failed - a commit with the same name already exists."), w') /\
    last_file folder_commit
    = mkLast (Some "Hello") (Some noon) (Some "2017.03.05 - 12.00.00") /\
    last_file w'
    = mkLast (Some "World") (Some noon) (Some "2017.03.05 - 12.00.00").
Proof. eexists. split; [vm_compute; reflexivity|]. split; reflexivity. Qed.

(** ** Remove and apply *)

(** C8. [remove] writes to the version log only: the working tree, with the
    metadata directory and every snapshot copy in it, and the last commit
    state are as they were, whether [remove] returns or raises. *)
Theorem remove_leaves_tree (commit : string) (w : world) :
  directory (snd (SC.remove commit w)) = directory w /\
  last_file (snd (SC.remove commit w)) = last_file w.
Proof.
  split.
  - apply (fun H => H w). change (preserves directory (SC.remove commit)).
    unfold SC.remove. frame.
  - apply (fun H => H w). change (preserves last_file (SC.remove commit)).
    unfold SC.remove. frame.
Qed.

(** C10. When no stored checksum starts with the prefix, [apply] raises the
    error of the resolver and the world is as it was: nothing has been
    cleared or copied. *)
Theorem apply_unresolved_unchanged (self : folder) (w : world)
  (vs : list Version) (p : string) :
  SC.versions w = (Return vs, w) ->
  (forall v, In v vs -> startswith (checksum v) p = false) ->
  exists msg, SC.apply self p w = (Raise (IndexError msg), w).
Proof.
  intros Hvs Hnone.
  destruct (resolve_unmatched w vs p Hvs Hnone) as [msg Hmsg].
  exists msg. unfold SC.apply. now apply bind_Raise.
Qed.

Lemma apply_unresolved_unchanged_witness :
  SC.versions two_commits
  = (Return (map snd (versions_file two_commits)), two_commits) /\
  (forall v, In v (map snd (versions_file two_commits)) ->
     startswith (checksum v) "A" = false) /\
  exists msg,
    SC.apply temp "A" two_commits = (Raise (IndexError msg), two_commits).
Proof.
  assert (Hnone : forall v, In v (map snd (versions_file two_commits)) ->
                    startswith (checksum v) "A" = false).
  { intros v [<-|[<-|[]]]; reflexivity. }
  split; [reflexivity|]. split; [exact Hnone|].
  exact (apply_unresolved_unchanged temp two_commits _ "A" eq_refl Hnone).
Defined.

(** ** Maps with one binding per key *)

Lemma lookup_unique {A : Type} (d : list (string * A)) (key : string) (x : A) :
  NoDup (map fst d) -> In (key, x) d -> lookup key d = Some x.
Proof.
  unfold lookup. induction d as [|[k y] d IH]; simpl; [contradiction|].
  intros Hnd Hin. inversion Hnd as [|? ? Hnot Hnd']; subst.
  destruct Hin as [[= -> ->]|Hin].
  - now rewrite String.eqb_refl.
  - destruct (String.eqb_spec k key) as [->|Hne]; [|now apply IH].
    exfalso. apply Hnot. change key with (fst (key, x)). now apply in_map.
Qed.

Lemma delete_keys {A : Type} (d : list (string * A)) (key k : string) :
  In k (map fst (delete key d)) <-> In k (map fst d) /\ k <> key.
Proof.
  unfold delete. rewrite !in_map_iff. split.
  - intros ([k' x] & <- & Hin). apply filter_In in Hin. destruct Hin as [Hin Hne].
    simpl in *. apply negb_true_iff, String.eqb_neq in Hne.
    split; [|exact Hne]. now exists (k', x).
  - intros (([k' x] & <- & Hin) & Hne). exists (k', x). split; [reflexivity|].
    apply filter_In. split; [exact Hin|]. simpl.
    now apply negb_true_iff, String.eqb_neq.
Qed.

Lemma NoDup_filter_keys {A : Type} (g : string * A -> bool) (d : list (string * A)) :
  NoDup (map fst d) -> NoDup (map fst (filter g d)).
Proof.
  induction d as [|e d IH]; simpl; intros Hnd; [constructor|].
  inversion Hnd as [|? ? Hnot Hnd']; subst.
  destruct (g e); simpl; [|now apply IH].
  constructor; [|now apply IH].
  intros Hin. apply Hnot. rewrite in_map_iff in *.
  destruct Hin as (e' & He & Hin). exists e'. split; [exact He|].
  now apply filter_In in Hin.
Qed.

Lemma filter_all {A : Type} (g : A -> bool) (l : list A) :
  (forall x, In x l -> g x = true) -> filter g l = l.
Proof.
  induction l as [|x l IH]; simpl; intros H; [reflexivity|].
  rewrite (H x (or_introl eq_refl)). f_equal. apply IH. auto.
Qed.

Lemma filter_twice {A : Type} (g h : A -> bool) (l : list A) :
  filter h (filter g l) = filter (fun x => g x && h x) l.
Proof.
  induction l as [|x l IH]; simpl; [reflexivity|].
  destruct (g x); simpl; [destruct (h x)|]; now rewrite IH.
Qed.

Lemma world_eta (w : world) :
  mkWorld (directory w) (versions_file w) (last_file w) = w.
Proof. now destruct w. Qed.

(** With one binding per key, the versions listed are the records stored. *)
Lemma collect_getitem_records (w : world) (l : list (string * Version)) :
  (forall e, In e l -> lookup (fst e) (versions_file w) = Some (snd e)) ->
  collect (map fst l) getitem w = (Return (map snd l), w).
Proof.
  induction l as [|e l IH]; intros H; simpl; [reflexivity|].
  unfold bind at 1. unfold getitem at 1. unfold bind at 1.
  unfold get_versions at 1. rewrite (H e (or_introl eq_refl)). unfold ret at 1.
  unfold bind. rewrite IH; [reflexivity|]. intros e' He'. apply H. now right.
Qed.

Lemma versions_records (w : world) :
  tabasco_directory_exists w ->
  NoDup (map fst (versions_file w)) ->
  SC.versions w = (Return (map snd (versions_file w)), w).
Proof.
  intros Hdir Hnd. unfold SC.versions.
  rewrite (bind_Return _ _ _ _ _ (shelve_open_ok w Hdir)).
  unfold bind at 1. unfold get_versions at 1.
  apply collect_getitem_records. intros [k x] Hin. now apply lookup_unique.
Qed.

Lemma resolve_needs_directory (p : string) (w w' : world) (r : option Version) :
  SC._version_by_commit_checksum p w = (Return r, w') ->
  tabasco_directory_exists w.
Proof.
  unfold SC._version_by_commit_checksum, SC.versions, shelve_open.
  unfold bind at 1 2 3. unfold is_dir, root. simpl.
  destruct (lookup ".tbsc" (directory w)) as [[data|es]|] eqn:E;
    simpl; try discriminate.
  intros _. now exists es.
Qed.

(** ** Remove *)

(** The loop of [remove] over the keys [ks] still to visit: the records
    under these keys that hold the checksum are deleted, and only they. *)
Lemma remove_loop (v : Version) (ks : list string) (w : world) :
  NoDup (map fst (versions_file w)) ->
  NoDup ks ->
  incl ks (map fst (versions_file w)) ->
  for_each ks (fun key =>
    x <- getitem key ;;
    match Some v with
    | None => raise AttributeError
    | Some version =>
        when (String.eqb (checksum x) (checksum version))
          (db' <- get_versions ;; put_versions (delete key db'))
    end) w
  = (Return tt,
     mkWorld (directory w)
       (filter (fun e => negb (existsb (String.eqb (fst e)) ks
                               && String.eqb (checksum (snd e)) (checksum v)))
          (versions_file w))
       (last_file w)).
Proof.
  revert w. induction ks as [|k ks IH]; intros w Hnd Hks Hincl.
  - simpl. unfold ret. rewrite filter_all; [now rewrite world_eta|reflexivity].
  - inversion Hks as [|? ? Hk Hks']; subst.
    destruct (lookup_In_fst k (versions_file w)) as [x Hx].
    { apply Hincl. now left. }
    assert (Hsnd : forall e, In e (versions_file w) -> fst e = k -> snd e = x).
    { intros [k' x'] Hin. simpl. intros ->.
      pose proof (lookup_unique _ _ _ Hnd Hin) as Hl. congruence. }
    cbn [for_each]. unfold bind at 1. unfold bind at 1.
    unfold getitem at 1. unfold bind at 1. unfold get_versions at 1.
    rewrite Hx. unfold ret at 1.
    destruct (String.eqb (checksum x) (checksum v)) eqn:Hm; cbn [when].
    + unfold bind at 1. unfold get_versions at 1. unfold put_versions at 1.
      rewrite IH; cbn [versions_file directory last_file].
      * f_equal. f_equal. unfold delete. rewrite filter_twice.
        apply filter_ext_in. intros e He. cbn [existsb].
        destruct (String.eqb_spec (fst e) k) as [Hek|Hek]; simpl; [|reflexivity].
        now rewrite (Hsnd e He Hek), Hm.
      * now apply NoDup_filter_keys.
      * exact Hks'.
      * intros k' Hk'. apply delete_keys. split.
        -- apply Hincl. now right.
        -- intros ->. now apply Hk.
    + unfold ret at 1. rewrite IH; auto.
      * f_equal. f_equal. apply filter_ext_in. intros e He. cbn [existsb].
        destruct (String.eqb_spec (fst e) k) as [Hek|Hek]; simpl; [|reflexivity].
        rewrite (Hsnd e He Hek), Hm. now rewrite andb_false_r.
      * intros k' Hk'. apply Hincl. now right.
Qed.

(** C6. When the prefix resolves to [v], [remove] returns and the version
    log it leaves is the old one without the records whose checksum is that
    of [v], all of them: listing the versions afterwards shows no such
    checksum. *)
Theorem remove_deletes_every_record (w : world) (p : string) (v : Version) :
  NoDup (map fst (versions_file w)) ->
  SC._version_by_commit_checksum p w = (Return (Some v), w) ->
  exists w',
    SC.remove p w = (Return tt, w') /\
    versions_file w'
    = filter (fun e => negb (String.eqb (checksum (snd e)) (checksum v)))
        (versions_file w) /\
    SC.versions w' = (Return (map snd (versions_file w')), w') /\
    forall x, In x (map snd (versions_file w')) -> checksum x <> checksum v.
Proof.
  intros Hnd Hres.
  pose proof (resolve_needs_directory _ _ _ _ Hres) as Hdir.
  exists (mkWorld (directory w)
            (filter (fun e => negb (String.eqb (checksum (snd e)) (checksum v)))
               (versions_file w))
            (last_file w)).
  split; [|split; [reflexivity|split]].
  - unfold SC.remove. rewrite (bind_Return _ _ _ _ _ Hres).
    rewrite (bind_Return _ _ _ _ _ (shelve_open_ok w Hdir)).
    unfold bind at 1. unfold get_versions at 1.
    rewrite remove_loop; [|exact Hnd|exact Hnd|apply incl_refl].
    f_equal. f_equal. apply filter_ext_in. intros e He.
    replace (existsb (String.eqb (fst e)) (map fst (versions_file w)))
      with true; [reflexivity|].
    symmetry. apply existsb_exists. exists (fst e).
    split; [now apply in_map|apply String.eqb_refl].
  - apply versions_records.
    + exact Hdir.
    + cbn [versions_file]. now apply NoDup_filter_keys.
  - cbn [versions_file]. intros x Hx. apply in_map_iff in Hx.
    destruct Hx as (e & <- & He). apply filter_In in He.
    destruct He as [_ He]. now apply negb_true_iff, String.eqb_neq in He.
Qed.

Lemma remove_deletes_every_record_witness :
  NoDup (map fst (versions_file three_commits)) /\
  SC._version_by_commit_checksum "Hello" three_commits
  = (Return (Some (mkVersion "Hello" noon "2017.03.05 - 12.00.00")),
     three_commits) /\
  map (fun e => checksum (snd e)) (versions_file three_commits)
  = ["Hello"; "Hello2"; "Hello"] /\
  exists w',
    SC.remove "Hello" three_commits = (Return tt, w') /\
    map (fun e => checksum (snd e)) (versions_file w') = ["Hello2"].
Proof.
  assert (Hnd : NoDup (map fst (versions_file three_commits))).
  { vm_compute. repeat constructor; simpl; intuition discriminate. }
  split; [exact Hnd|]. split; [reflexivity|]. split; [reflexivity|].
  destruct (remove_deletes_every_record three_commits "Hello"
              (mkVersion "Hello" noon "2017.03.05 - 12.00.00") Hnd eq_refl)
    as (w' & Hrun & Hlog & _).
  exists w'. split; [exact Hrun|]. rewrite Hlog. reflexivity.
Defined.

(** ** Paths *)

Lemma stat_app (p1 p2 : list string) (n : node) :
  stat (p1 ++ p2) n =
  match stat p1 n with
  | Return m => stat p2 m
  | Raise e => Raise e
  end.
Proof.
  revert n. induction p1 as [|c p1 IH]; intros n; simpl; [reflexivity|].
  destruct n as [data|es]; [reflexivity|].
  destruct (lookup c es); [apply IH|reflexivity].
Qed.

Lemma lookup_store_same {A : Type} (key : string) (x : A) (d : list (string * A)) :
  lookup key (store key x d) = Some x.
Proof.
  unfold lookup. induction d as [|[k y] d IH]; simpl.
  - now rewrite String.eqb_refl.
  - destruct (String.eqb k key) eqn:E; simpl; rewrite E; [reflexivity|exact IH].
Qed.

Lemma lookup_store_other {A : Type} (key k : string) (x : A) (d : list (string * A)) :
  k <> key -> lookup k (store key x d) = lookup k d.
Proof.
  intros Hne. unfold lookup. induction d as [|[k' y] d IH]; simpl.
  - destruct (String.eqb_spec key k); [congruence|reflexivity].
  - destruct (String.eqb_spec k' key) as [->|Hk]; simpl.
    + destruct (String.eqb_spec key k); [congruence|reflexivity].
    + destruct (String.eqb k' k); [reflexivity|exact IH].
Qed.

Lemma lookup_app {A : Type} (key : string) (d1 d2 : list (string * A)) :
  lookup key (d1 ++ d2) =
  match lookup key d1 with
  | Some x => Some x
  | None => lookup key d2
  end.
Proof.
  unfold lookup. induction d1 as [|[k y] d1 IH]; simpl; [reflexivity|].
  destruct (String.eqb k key); [reflexivity|exact IH].
Qed.

(** A change inside the directory at [parent], seen from a path below it. *)
Lemma stat_modify (parent : list string) (g : listing -> listing)
  (n n' : node) (es : listing) (q : list string) :
  stat parent n = Return (Dir es) ->
  modify parent g n = Some n' ->
  stat (parent ++ q) n' = stat q (Dir (g es)).
Proof.
  revert n n'. induction parent as [|a parent IH]; intros n n' Hs Hm.
  - simpl in *. injection Hs as ->. simpl in Hm. now injection Hm as <-.
  - destruct n as [data|es0]; [discriminate|]. simpl in Hs, Hm.
    destruct (lookup a es0) as [child|]; [|discriminate].
    destruct (modify parent g child) as [child'|] eqn:Ec; [|discriminate].
    injection Hm as <-. simpl. rewrite lookup_store_same.
    now apply IH with (n := child).
Qed.

Lemma change_peek (parent q : list string) (g : listing -> listing) (w : world) :
  (forall es, stat parent (root w) = Return (Dir es) ->
     peek_in q (Dir (g es)) = peek_in q (Dir es)) ->
  peek (parent ++ q) (snd (change parent g w)) = peek (parent ++ q) w.
Proof.
  intros H. unfold change, bind, os_stat.
  destruct (stat parent (root w)) as [[data|es]|e] eqn:Es; simpl;
    try reflexivity.
  destruct (modify parent g (root w)) as [[data|es']|] eqn:Em; simpl;
    try reflexivity.
  unfold peek, peek_in, root at 1. simpl.
  rewrite (stat_modify _ _ _ _ _ q Es Em).
  rewrite stat_app, Es. exact (H es eq_refl).
Qed.

Lemma peek_in_new_directory (c c0 : string) (rest : list string) (es : listing) :
  c <> c0 \/ rest <> [] ->
  peek_in (c :: rest) (Dir (es ++ [(c0, Dir [])])) = peek_in (c :: rest) (Dir es).
Proof.
  intros H. unfold peek_in. simpl. rewrite lookup_app.
  destruct (lookup c es) as [x|]; [reflexivity|].
  unfold lookup. simpl.
  destruct (String.eqb_spec c0 c) as [->|Hne]; simpl; [|reflexivity].
  destruct H as [H|H]; [congruence|].
  destruct rest as [|r rest]; [congruence|reflexivity].
Qed.

Lemma os_mkdir_peek (parent : list string) (c0 c : string) (rest : list string) :
  c <> c0 \/ rest <> [] ->
  preserves (peek (parent ++ c :: rest)) (os_mkdir parent c0).
Proof.
  intros H. unfold os_mkdir. frame.
  intros w. apply change_peek. intros es0 _. now apply peek_in_new_directory.
Qed.

Lemma makedirs_cons (done : list string) (a : string) (todo : list string) :
  todo <> [] ->
  makedirs done (a :: todo)
  = (e <- exists_ (done ++ [a]) ;;
     when (negb e) (os_mkdir done a) ;;
     makedirs (done ++ [a]) todo).
Proof. destruct todo; [congruence|reflexivity]. Qed.

(** Making the directories down to [done/pre/c0] shows nothing new at a
    path that leaves this line at [c0] or goes on below it. *)
Lemma makedirs_peek (pre done : list string) (c0 c : string) (rest : list string) :
  c <> c0 \/ rest <> [] ->
  preserves (peek (done ++ pre ++ c :: rest)) (makedirs done (pre ++ [c0])).
Proof.
  intros H. revert done. induction pre as [|a pre IH]; intros done.
  - simpl. now apply os_mkdir_peek.
  - simpl app at 2 3. rewrite makedirs_cons by (now destruct pre).
    frame.
    + apply os_mkdir_peek. right. now destruct pre.
    + replace (done ++ a :: pre ++ c :: rest)
        with ((done ++ [a]) ++ pre ++ c :: rest)
        by (now rewrite <- app_assoc).
      apply IH.
Qed.

Lemma write_peek_other (parent : list string) (c0 c : string) (rest : list string)
  (n : node) :
  c <> c0 -> preserves (peek (parent ++ c :: rest)) (write parent c0 n).
Proof.
  intros Hne w. unfold write. apply change_peek. intros es _.
  unfold peek_in. simpl. now rewrite lookup_store_other.
Qed.

(** Copying the file [c] to [pre/c0] shows nothing new at a path
    [pre/c0/c'/...] with another name [c']. *)
Lemma copy2_peek (src pre : list string) (c c0 c' : string) (rest : list string) :
  c' <> c ->
  preserves (peek (pre ++ c0 :: c' :: rest)) (copy2 src c (pre ++ [c0])).
Proof.
  intros Hne w. unfold copy2. unfold bind at 1. unfold os_stat at 1.
  destruct (stat (src ++ [c]) (root w)) as [[data|es]|e]; try reflexivity.
  unfold bind at 1. unfold is_dir at 1.
  destruct (stat (pre ++ [c0]) (root w)) as [[d|es]|e] eqn:Ed.
  - unfold bind, is_dir. rewrite Ed. rewrite removelast_last, last_last.
    replace (pre ++ c0 :: c' :: rest) with (pre ++ [c0] ++ c' :: rest)
      by reflexivity.
    apply change_peek. intros es Hes. rewrite stat_app, Hes in Ed.
    unfold peek_in. simpl. rewrite lookup_store_same. simpl in Ed.
    now destruct (lookup c0 es) as [[|]|].
  - unfold bind at 1. unfold is_dir at 1.
    destruct (stat ((pre ++ [c0]) ++ [c]) (root w)) as [[d|es']|e];
      try reflexivity.
    + rewrite removelast_last, last_last.
      replace (pre ++ c0 :: c' :: rest) with ((pre ++ [c0]) ++ c' :: rest)
        by (now rewrite <- app_assoc).
      now apply write_peek_other.
    + rewrite removelast_last, last_last.
      replace (pre ++ c0 :: c' :: rest) with ((pre ++ [c0]) ++ c' :: rest)
        by (now rewrite <- app_assoc).
      now apply write_peek_other.
  - unfold bind, is_dir. rewrite Ed. rewrite removelast_last, last_last.
    replace (pre ++ c0 :: c' :: rest) with (pre ++ [c0] ++ c' :: rest)
      by reflexivity.
    apply change_peek. intros es Hes. rewrite stat_app, Hes in Ed.
    unfold peek_in. simpl. rewrite lookup_store_same. simpl in Ed.
    now destruct (lookup c0 es) as [[|]|].
Qed.

Lemma copytree_peek (src vd : list string) (c c' : string) (rest : list string) :
  c' <> c -> preserves (peek (vd ++ c' :: rest)) (copytree src vd c).
Proof.
  intros Hne. unfold copytree. frame.
  - apply (makedirs_peek vd [] c c' rest). now left.
  - now apply write_peek_other.
Qed.

(** ** The snapshot copy of a commit *)

Lemma commit_peek (pre : list string) (c0 filename : string) :
  contains ".tbsc" filename = true ->
  preserves (peek (pre ++ c0 :: [filename])) (Monitor._commit (pre ++ [c0])).
Proof.
  intros Htbsc. unfold Monitor._commit.
  apply preserves_bind; [frame|intros e].
  apply preserves_bind.
  { apply preserves_when. apply (makedirs_peek pre [] c0 c0 [filename]).
    right. discriminate. }
  intros _. apply preserves_bind; [frame|intros filenames].
  apply preserves_for_each. intros other.
  destruct (contains ".tbsc" other) eqn:E; [frame|].
  assert (Hne : filename <> other) by congruence.
  apply preserves_bind; [frame|intros f]. destruct f.
  - now apply copy2_peek.
  - apply preserves_bind; [frame|intros d]. apply preserves_when.
    replace (pre ++ c0 :: [filename]) with ((pre ++ [c0]) ++ [filename])
      by (now rewrite <- app_assoc).
    now apply copytree_peek.
Qed.

(** C9. The copy of a commit passes over every top-level entry whose name
    contains [.tbsc]: what the snapshot directory holds under such a name is
    what it held before the copy, so nothing when the snapshot directory is
    new, whether the copy returns or raises. *)
Theorem commit_skips_tbsc_names (version_name filename : string) (w : world) :
  contains ".tbsc" filename = true ->
  peek [".tbsc"; version_name; filename]
    (snd (Monitor._commit [".tbsc"; version_name] w))
  = peek [".tbsc"; version_name; filename] w
  /\
  (peek [".tbsc"; version_name] w = None ->
   peek [".tbsc"; version_name; filename]
     (snd (Monitor._commit [".tbsc"; version_name] w)) = None).
Proof.
  intros Htbsc.
  pose proof (commit_peek [".tbsc"] version_name filename Htbsc w) as Hsame.
  simpl app in Hsame. split; [exact Hsame|].
  intros Hnew. rewrite Hsame. unfold peek, peek_in in *.
  change [".tbsc"; version_name; filename]
    with ([".tbsc"; version_name] ++ [filename]).
  rewrite stat_app.
  destruct (stat [".tbsc"; version_name] (root w)); [discriminate|reflexivity].
Qed.

Lemma commit_skips_tbsc_names_witness :
  contains ".tbsc" "notes.tbsc.txt" = true /\
  fst (Monitor._commit [".tbsc"; "commit"] notes_tree) = Return tt /\
  peek ["notes.tbsc.txt"] notes_tree = Some (File "n") /\
  peek [".tbsc"; "commit"; "FILE"]
    (snd (Monitor._commit [".tbsc"; "commit"] notes_tree)) = Some (File "x") /\
  peek [".tbsc"; "commit"; "notes.tbsc.txt"]
    (snd (Monitor._commit [".tbsc"; "commit"] notes_tree)) = None.
Proof.
  split; [reflexivity|]. split; [reflexivity|]. split; [reflexivity|].
  split; [reflexivity|].
  exact (proj2 (commit_skips_tbsc_names "commit" "notes.tbsc.txt" notes_tree
                  eq_refl) eq_refl).
Defined.

(** ** A commit under a name already in the version log *)

(** [_backup] stores the new record under the name computed from [now]
    before it copies, whatever the version log holds under that name. *)
Lemma backup_stores_record (now : datetime) (c : string) (w : world) :
  tabasco_directory_exists w ->
  lookup (strftime now) (versions_file (snd (Monitor._backup now c w)))
  = Some (mkVersion c now (strftime now)).
Proof.
  intros Hdir. unfold Monitor._backup.
  rewrite (bind_Return _ _ _ _ _ (shelve_open_ok w Hdir)).
  unfold bind at 1. unfold get_versions at 1.
  unfold bind at 1. unfold put_versions at 1.
  rewrite (preserves_commit versions_file tree_blind_versions_file).
  apply lookup_store_same.
Qed.

(** C5 fails on the code. With frequency 0, a second check in the second of
    the first commit, on a changed tree that holds files only: [run] returns
    without an error and the record of the first commit has been replaced
    by the new one under the same name. *)
Theorem duplicate_name_commit_overwrites :
  strftime noon_and_a_half = strftime noon /\
  lookup (strftime noon) (versions_file one_commit)
  = Some (mkVersion "Hello" noon (strftime noon)) /\
  exists w',
    Monitor.run 0 noon_and_a_half "World" one_commit = (Return tt, w') /\
    versions_file w'
    = [(strftime noon, mkVersion "World" noon_and_a_half (strftime noon))].
Proof.
  split; [reflexivity|]. split; [reflexivity|].
  eexists. split; vm_compute; reflexivity.
Qed.

(** ** Clearing the working directory *)

Lemma lookup_delete_same {A : Type} (key : string) (d : list (string * A)) :
  lookup key (delete key d) = None.
Proof.
  unfold lookup, delete. induction d as [|[k y] d IH]; simpl; [reflexivity|].
  destruct (String.eqb k key) eqn:E; simpl; [exact IH|]. now rewrite E.
Qed.

Lemma delete_absent {A : Type} (key : string) (d : list (string * A)) :
  lookup key d = None -> delete key d = d.
Proof.
  unfold lookup, delete. induction d as [|[k y] d IH]; simpl; [reflexivity|].
  destruct (String.eqb k key) eqn:E; simpl; [discriminate|].
  intros H. f_equal. now apply IH.
Qed.

Lemma stat_top (c : string) (w : world) :
  stat [c] (root w) =
  match lookup c (directory w) with
  | Some child => Return child
  | None => Raise FileNotFoundError
  end.
Proof. unfold root. simpl. now destruct (lookup c (directory w)). Qed.

Lemma change_top (g : listing -> listing) (w : world) :
  change [] g w
  = (Return tt, mkWorld (g (directory w)) (versions_file w) (last_file w)).
Proof. reflexivity. Qed.

(** One turn of the loop of [_clear_working_directory] deletes the entry of
    that name, a file or a directory. *)
Lemma clear_step (path : string) (w : world) :
  (d <- is_dir [path] ;;
   when d (unlink [] path) ;;
   f <- is_file [path] ;;
   when f (unlink [] path)) w
  = (Return tt,
     mkWorld (delete path (directory w)) (versions_file w) (last_file w)).
Proof.
  unfold bind at 1. unfold is_dir at 1. rewrite stat_top.
  destruct (lookup path (directory w)) as [[data|es]|] eqn:E.
  - cbn [when]. unfold bind at 1. unfold ret at 1.
    unfold bind at 1. unfold is_file at 1. rewrite stat_top, E.
    cbn [when]. unfold unlink. now rewrite change_top.
  - cbn [when]. unfold bind at 1. unfold unlink at 1. rewrite change_top.
    unfold bind at 1. unfold is_file at 1. rewrite stat_top.
    cbn [directory]. rewrite lookup_delete_same. reflexivity.
  - cbn [when]. unfold bind at 1. unfold ret at 1.
    unfold bind at 1. unfold is_file at 1. rewrite stat_top, E.
    cbn [when]. unfold ret. rewrite delete_absent by exact E.
    now rewrite world_eta.
Qed.

Lemma clear_loop (paths : list string) (w : world) :
  for_each paths (fun path =>
    d <- is_dir [path] ;;
    when d (unlink [] path) ;;
    f <- is_file [path] ;;
    when f (unlink [] path)) w
  = (Return tt,
     mkWorld (fold_left (fun d path => delete path d) paths (directory w))
       (versions_file w) (last_file w)).
Proof.
  revert w. induction paths as [|path paths IH]; intros w.
  - simpl. unfold ret. now rewrite world_eta.
  - cbn [for_each fold_left].
    rewrite (bind_Return _ _ _ _ _ (clear_step path w)).
    now rewrite IH.
Qed.

Lemma fold_delete {A : Type} (keys : list string) (d : list (string * A)) :
  fold_left (fun d key => delete key d) keys d
  = filter (fun e => negb (existsb (String.eqb (fst e)) keys)) d.
Proof.
  revert d. induction keys as [|k keys IH]; intros d; simpl.
  - symmetry. now apply filter_all.
  - rewrite IH. unfold delete. rewrite filter_twice.
    apply filter_ext. intros e. now rewrite negb_orb.
Qed.

Lemma lookup_filter_keep {A : Type} (g : string -> bool) (key : string)
  (d : list (string * A)) :
  g key = true -> lookup key (filter (fun e => g (fst e)) d) = lookup key d.
Proof.
  intros Hg. unfold lookup. induction d as [|[k y] d IH]; simpl; [reflexivity|].
  destruct (String.eqb_spec k key) as [->|Hne].
  - rewrite Hg. simpl. now rewrite String.eqb_refl.
  - destruct (g k); simpl; [|exact IH].
    destruct (String.eqb_spec k key); [contradiction|exact IH].
Qed.

Lemma lookup_filter_drop {A : Type} (g : string -> bool) (key : string)
  (d : list (string * A)) :
  g key = false -> lookup key (filter (fun e => g (fst e)) d) = None.
Proof.
  intros Hg. unfold lookup. induction d as [|[k y] d IH]; simpl; [reflexivity|].
  destruct (g k) eqn:Ek; simpl; [|exact IH].
  destruct (String.eqb_spec k key) as [->|Hne]; [congruence|exact IH].
Qed.

(** [_clear_working_directory] returns, and deletes the names that glob
    lists. *)
Lemma clear_run (self : folder) (w : world) :
  SC._clear_working_directory self w
  = (Return tt,
     mkWorld (cleared self (directory w)) (versions_file w) (last_file w)).
Proof.
  unfold SC._clear_working_directory.
  unfold bind at 1. unfold glob_star at 1. unfold bind at 1.
  unfold listdir at 1. unfold bind at 1. unfold os_stat at 1.
  cbn [stat root]. unfold ret at 1. unfold ret at 1.
  now rewrite clear_loop.
Qed.

Lemma glob_names_visible (self : folder) (names : list string) (c : string) :
  In c (glob_names self names) -> In c names /\ ishidden c = false.
Proof.
  assert (Hvis : In c (filter (fun filename => negb (ishidden filename)) names)
                 -> In c names /\ ishidden c = false).
  { intros H. apply filter_In in H. destruct H as [Hin Hc].
    split; [exact Hin|]. now apply negb_true_iff. }
  unfold glob_names. destruct (has_magic (folder_path self)); [|exact Hvis].
  intros H. apply in_concat in H. destruct H as (l & Hl & Hc).
  apply repeat_spec in Hl. subst l. now apply Hvis.
Qed.

(** Whatever glob lists, an entry whose name begins with a dot is not
    deleted. *)
Lemma cleared_keeps_hidden (self : folder) (c : string) (d : listing) :
  ishidden c = true -> lookup c (cleared self d) = lookup c d.
Proof.
  intros Hc. unfold cleared. rewrite fold_delete.
  apply (lookup_filter_keep
           (fun k => negb (existsb (String.eqb k) (glob_names self (map fst d))))).
  apply negb_true_iff, not_true_iff_false. intros Hex.
  apply existsb_exists in Hex. destruct Hex as (k & Hk & Hek).
  apply String.eqb_eq in Hek. subst k.
  apply glob_names_visible in Hk. destruct Hk as [_ Hk]. congruence.
Qed.

(** In a directory whose path holds no pattern character, what is left are
    the entries whose names begin with a dot. *)
Lemma cleared_plain (self : folder) (d : listing) :
  has_magic (folder_path self) = false ->
  cleared self d = filter (fun e => ishidden (fst e)) d.
Proof.
  intros Hplain. unfold cleared, glob_names. rewrite Hplain, fold_delete.
  apply filter_ext_in. intros e He.
  destruct (ishidden (fst e)) eqn:Eh.
  - apply negb_true_iff, not_true_iff_false. intros Hex.
    apply existsb_exists in Hex. destruct Hex as (k & Hk & Hek).
    apply String.eqb_eq in Hek. subst k.
    apply filter_In in Hk. destruct Hk as [_ Hk]. now rewrite Eh in Hk.
  - apply negb_false_iff, existsb_exists. exists (fst e).
    split; [|apply String.eqb_refl].
    apply filter_In. split; [now apply in_map|now rewrite Eh].
Qed.

Lemma clear_working_directory_hidden (self : folder) (w : world) :
  has_magic (folder_path self) = false ->
  SC._clear_working_directory self w
  = (Return tt,
     mkWorld (filter (fun e => ishidden (fst e)) (directory w))
       (versions_file w) (last_file w)).
Proof. intros Hplain. now rewrite clear_run, cleared_plain. Qed.

(** ** Copying a snapshot back *)

Lemma store_absent {A : Type} (key : string) (x : A) (d : list (string * A)) :
  lookup key d = None -> store key x d = d ++ [(key, x)].
Proof.
  unfold lookup. induction d as [|[k y] d IH]; simpl; [reflexivity|].
  destruct (String.eqb k key); simpl; [discriminate|].
  intros H. f_equal. now apply IH.
Qed.

Lemma store_last {A : Type} (key : string) (x y : A) (d : list (string * A)) :
  lookup key d = None -> store key x (d ++ [(key, y)]) = d ++ [(key, x)].
Proof.
  unfold lookup. induction d as [|[k z] d IH]; simpl.
  - now rewrite String.eqb_refl.
  - destruct (String.eqb k key); simpl; [discriminate|].
    intros H. f_equal. now apply IH.
Qed.

Lemma stat_child (vp : list string) (c : string) (w : world) (snap : listing)
  (x : node) :
  stat vp (root w) = Return (Dir snap) ->
  lookup c snap = Some x ->
  stat (vp ++ [c]) (root w) = Return x.
Proof. intros Hs Hl. rewrite stat_app, Hs. simpl. now rewrite Hl. Qed.

(** One turn of the loop of [_copy_to_working_directory], for an entry of
    the snapshot whose name is not in the working directory. *)
Lemma copy_back_step (vp : list string) (c : string) (w : world)
  (snap : listing) (x : node) :
  stat vp (root w) = Return (Dir snap) ->
  lookup c snap = Some x ->
  lookup c (directory w) = None ->
  (f <- is_file (vp ++ [c]) ;;
   if f then copy2 vp c []
   else
     d <- is_dir (vp ++ [c]) ;;
     when d (copytree (vp ++ [c]) [] c)) w
  = (Return tt,
     mkWorld (directory w ++ [(c, x)]) (versions_file w) (last_file w)).
Proof.
  intros Hs Hl Hnew.
  pose proof (stat_child vp c w snap x Hs Hl) as Hx.
  unfold bind at 1. unfold is_file at 1. rewrite Hx.
  destruct x as [data|es].
  - unfold copy2. unfold bind at 1. unfold os_stat at 1. rewrite Hx.
    unfold bind at 1. unfold is_dir at 1. cbn [stat root app].
    unfold bind at 1. unfold is_dir at 1. rewrite stat_top, Hnew.
    cbn [removelast last]. unfold write. rewrite change_top.
    now rewrite store_absent.
  - unfold bind at 1. unfold is_dir at 1. rewrite Hx. cbn [when].
    unfold copytree. unfold bind at 1. unfold os_stat at 1. rewrite Hx.
    cbn [app makedirs]. unfold bind at 1. unfold os_mkdir at 1.
    unfold bind at 1. unfold os_stat at 1. cbn [stat root]. rewrite Hnew.
    rewrite change_top. unfold write. rewrite change_top.
    cbn [directory versions_file last_file]. now rewrite store_last.
Qed.

Lemma copy_back_loop (vp : list string) (snap todo : listing) (w : world) :
  vp <> [] ->
  stat vp (root w) = Return (Dir snap) ->
  (forall e, In e todo -> lookup (fst e) snap = Some (snd e)) ->
  NoDup (map fst todo) ->
  (forall c, In c (map fst todo) -> lookup c (directory w) = None) ->
  for_each (map fst todo) (fun c =>
    f <- is_file (vp ++ [c]) ;;
    if f then copy2 vp c []
    else
      d <- is_dir (vp ++ [c]) ;;
      when d (copytree (vp ++ [c]) [] c)) w
  = (Return tt,
     mkWorld (directory w ++ todo) (versions_file w) (last_file w)).
Proof.
  intros Hvp. revert w. induction todo as [|[c x] todo IH];
    intros w Hs Hsnap Hnd Hnew.
  - simpl. unfold ret. now rewrite app_nil_r, world_eta.
  - cbn [map fst for_each]. inversion Hnd as [|? ? Hc Hnd']; subst.
    rewrite (bind_Return _ _ _ _ _
               (copy_back_step vp c w snap x Hs
                  (Hsnap (c, x) (or_introl eq_refl))
                  (Hnew c (or_introl eq_refl)))).
    rewrite IH; cbn [directory versions_file last_file].
    + now rewrite <- app_assoc.
    + destruct vp as [|a vp]; [congruence|].
      unfold root in *. cbn [directory]. simpl in Hs |- *.
      rewrite lookup_app.
      destruct (lookup a (directory w)); [exact Hs|discriminate].
    + intros e He. apply Hsnap. now right.
    + exact Hnd'.
    + intros c' Hc'. rewrite lookup_app, (Hnew c' (or_intror Hc')).
      unfold lookup. simpl.
      destruct (String.eqb_spec c c') as [->|Hne]; [contradiction|reflexivity].
Qed.

Lemma lookup_None_keys {A : Type} (key : string) (d : list (string * A)) :
  ~ In key (map fst d) -> lookup key d = None.
Proof.
  intros H. destruct (lookup key d) as [x|] eqn:E; [|reflexivity].
  exfalso. apply H. unfold lookup in E.
  destruct (find (fun e => String.eqb (fst e) key) d) as [e|] eqn:Ef;
    [|discriminate].
  apply find_some in Ef. destruct Ef as [Hin Hk].
  apply String.eqb_eq in Hk. subst key. now apply in_map.
Qed.

Lemma lookup_In {A : Type} (key : string) (x : A) (d : list (string * A)) :
  lookup key d = Some x -> In (key, x) d.
Proof.
  unfold lookup.
  destruct (find (fun e => String.eqb (fst e) key) d) as [[k y]|] eqn:E;
    [|discriminate].
  intros [= <-]. apply find_some in E. destruct E as [Hin Hk].
  apply String.eqb_eq in Hk. simpl in Hk. now subst k.
Qed.

(** ** Apply *)

(** One turn of the loop of [_copy_to_working_directory], for an entry of
    the snapshot that fits the working directory: a file replaces the file
    of its name or is added, a directory is added. *)
Lemma copy_back_store_step (vp : list string) (c : string) (w : world)
  (snap : listing) (x : node) :
  stat vp (root w) = Return (Dir snap) ->
  lookup c snap = Some x ->
  fits (directory w) (c, x) ->
  (f <- is_file (vp ++ [c]) ;;
   if f then copy2 vp c []
   else
     d <- is_dir (vp ++ [c]) ;;
     when d (copytree (vp ++ [c]) [] c)) w
  = (Return tt,
     mkWorld (store c x (directory w)) (versions_file w) (last_file w)).
Proof.
  intros Hs Hl Hfit.
  destruct x as [data|es]; unfold fits in Hfit; cbn [fst snd] in Hfit.
  - pose proof (stat_child vp c w snap _ Hs Hl) as Hx.
    unfold bind at 1. unfold is_file at 1. rewrite Hx.
    unfold copy2. unfold bind at 1. unfold os_stat at 1. rewrite Hx.
    unfold bind at 1. unfold is_dir at 1. cbn [stat root app].
    unfold bind at 1. unfold is_dir at 1. rewrite stat_top.
    destruct (lookup c (directory w)) as [[d|es]|] eqn:E.
    + cbn [removelast last]. unfold write. now rewrite change_top.
    + now contradiction (Hfit es).
    + cbn [removelast last]. unfold write. now rewrite change_top.
  - rewrite (store_absent c (Dir es) (directory w) Hfit).
    now apply (copy_back_step vp c w snap (Dir es)).
Qed.

Lemma stat_below_Dir (a : string) (rest : list string) (d : listing)
  (snap : listing) :
  stat (a :: rest) (Dir d) = Return (Dir snap) ->
  exists es, lookup a d = Some (Dir es).
Proof.
  simpl. destruct (lookup a d) as [[data|es]|]; [|eauto|discriminate].
  destruct rest; discriminate.
Qed.

Lemma copy_back_stores (vp : list string) (snap todo : listing) (w : world) :
  vp <> [] ->
  stat vp (root w) = Return (Dir snap) ->
  (forall e, In e todo -> lookup (fst e) snap = Some (snd e)) ->
  NoDup (map fst todo) ->
  (forall e, In e todo -> fits (directory w) e) ->
  for_each (map fst todo) (fun c =>
    f <- is_file (vp ++ [c]) ;;
    if f then copy2 vp c []
    else
      d <- is_dir (vp ++ [c]) ;;
      when d (copytree (vp ++ [c]) [] c)) w
  = (Return tt,
     mkWorld (copied_over todo (directory w)) (versions_file w) (last_file w)).
Proof.
  intros Hvp. revert w. induction todo as [|[c x] todo IH];
    intros w Hs Hsnap Hnd Hfit.
  - simpl. unfold ret. now rewrite world_eta.
  - cbn [map fst for_each]. inversion Hnd as [|? ? Hc Hnd']; subst.
    pose proof (Hfit (c, x) (or_introl eq_refl)) as Hfit0.
    rewrite (bind_Return _ _ _ _ _
               (copy_back_store_step vp c w snap x Hs
                  (Hsnap (c, x) (or_introl eq_refl)) Hfit0)).
    rewrite IH; cbn [directory versions_file last_file].
    + reflexivity.
    + destruct vp as [|a vp]; [congruence|].
      destruct (stat_below_Dir a vp (directory w) snap Hs) as [es Hes].
      assert (Hne : c <> a).
      { intros ->. unfold fits in Hfit0. cbn [fst snd] in Hfit0.
        destruct x; [now contradiction (Hfit0 es)|congruence]. }
      unfold root in *. cbn [directory]. simpl in Hs |- *.
      now rewrite lookup_store_other by congruence.
    + intros e He. apply Hsnap. now right.
    + exact Hnd'.
    + intros [c' x'] He.
      assert (Hne : c <> c').
      { intros ->. apply Hc. now apply (in_map fst) in He. }
      pose proof (Hfit (c', x') (or_intror He)) as Hfit'.
      unfold fits in *. cbn [fst snd] in *.
      now rewrite lookup_store_other by congruence.
Qed.

Lemma lookup_copied_over (c : string) (snap d : listing) :
  NoDup (map fst snap) ->
  lookup c (copied_over snap d)
  = match lookup c snap with
    | Some n => Some n
    | None => lookup c d
    end.
Proof.
  unfold copied_over. revert d.
  induction snap as [|[k x] snap IH]; intros d Hnd; [reflexivity|].
  inversion Hnd as [|? ? Hk Hnd']; subst. cbn [fold_left fst snd].
  rewrite (IH _ Hnd').
  destruct (String.eqb_spec k c) as [->|Hne].
  - rewrite (lookup_None_keys c snap Hk), lookup_store_same.
    unfold lookup. simpl. now rewrite String.eqb_refl.
  - rewrite lookup_store_other by congruence.
    unfold lookup at 3. simpl.
    destruct (String.eqb_spec k c); [contradiction|reflexivity].
Qed.

(** C2 fails on the code: a file whose name begins with a dot, added after
    the commit, is still there after [apply]. *)
Lemma apply_keeps_dotfile : ~ restores_snapshot_exactly temp dotfile_world "H".
Proof.
  intros H.
  destruct (H (mkVersion "Hello" noon "2017.03.05 - 12.00.00")
              [("FILE", File "x")] eq_refl eq_refl) as [_ Hsnap].
  specialize (Hsnap ".env"). vm_compute in Hsnap.
  assert (Hne : ".env" <> ".tbsc") by discriminate.
  specialize (Hsnap Hne). discriminate.
Qed.

(** It fails as well in a directory whose path reads as a pattern that
    does not find the directory: nothing is cleared, and a file added after
    the commit is still there after [apply]. *)
Lemma apply_keeps_files_in_bracket_folder :
  ~ restores_snapshot_exactly bracket_folder dotfile_world "H".
Proof.
  intros H.
  destruct (H (mkVersion "Hello" noon "2017.03.05 - 12.00.00")
              [("FILE", File "x")] eq_refl eq_refl) as [_ Hsnap].
  specialize (Hsnap "BADFILE"). vm_compute in Hsnap.
  assert (Hne : "BADFILE" <> ".tbsc") by discriminate.
  specialize (Hsnap Hne). discriminate.
Qed.

(** C2 as the code has it, in a directory whose path holds no pattern
    character of glob. Take a prefix that resolves to a version, and let
    every entry of its snapshot copy whose name begins with a dot fit the
    working directory: a file where the working directory has no directory
    of that name, a directory where it has nothing of that name. Then
    [apply] returns; it has deleted every top-level entry whose name does
    not begin with a dot and copied every entry of the snapshot back. So the
    entries whose names do not begin with a dot are exactly those of the
    snapshot: what was added or removed under such names since the commit is
    discarded. Under a name that begins with a dot there is the entry of the
    snapshot when it has one, and what was there before otherwise; the
    metadata directory and both databases are left as they were. *)
Theorem apply_restores_visible_entries
  (self : folder) (w : world) (p : string) (v : Version) (snap : listing) :
  has_magic (folder_path self) = false ->
  SC._version_by_commit_checksum p w = (Return (Some v), w) ->
  peek [".tbsc"; name v] w = Some (Dir snap) ->
  NoDup (map fst snap) ->
  (forall e, In e snap -> ishidden (fst e) = true -> fits (directory w) e) ->
  exists w',
    SC.apply self p w = (Return tt, w') /\
    directory w'
    = copied_over snap (filter (fun e => ishidden (fst e)) (directory w)) /\
    versions_file w' = versions_file w /\
    last_file w' = last_file w /\
    (forall filename, ishidden filename = false ->
       lookup filename (directory w') = lookup filename snap) /\
    (forall filename, ishidden filename = true ->
       lookup filename (directory w')
       = match lookup filename snap with
         | Some n => Some n
         | None => lookup filename (directory w)
         end) /\
    lookup ".tbsc" (directory w') = lookup ".tbsc" (directory w).
Proof.
  intros Hplain Hres Hsnap Hnd Hfit.
  set (kept := filter (fun e => ishidden (fst e)) (directory w)).
  assert (Hkept : forall e, In e snap -> fits kept e).
  { intros [c x] He. destruct (ishidden c) eqn:Eh.
    - pose proof (Hfit (c, x) He Eh) as Hf. unfold fits in *.
      cbn [fst snd] in *. unfold kept.
      now rewrite (lookup_filter_keep ishidden) by exact Eh.
    - unfold fits. cbn [fst snd]. unfold kept.
      rewrite (lookup_filter_drop ishidden) by exact Eh.
      destruct x; [discriminate|reflexivity]. }
  assert (Hlook : forall filename,
    lookup filename (copied_over snap kept) =
    match lookup filename snap with
    | Some n => Some n
    | None => if ishidden filename then lookup filename (directory w) else None
    end).
  { intros filename. rewrite (lookup_copied_over filename snap kept Hnd).
    destruct (lookup filename snap); [reflexivity|]. unfold kept.
    destruct (ishidden filename) eqn:Eh.
    - now rewrite (lookup_filter_keep ishidden) by exact Eh.
    - now rewrite (lookup_filter_drop ishidden) by exact Eh. }
  exists (mkWorld (copied_over snap kept) (versions_file w) (last_file w)).
  split; [|repeat split].
  - unfold SC.apply. rewrite (bind_Return _ _ _ _ _ Hres).
    rewrite (bind_Return _ _ _ _ _
               (clear_working_directory_hidden self w Hplain)).
    fold kept. unfold SC._copy_to_working_directory.
    unfold peek, peek_in in Hsnap.
    destruct (stat [".tbsc"; name v] (root w)) as [n|e] eqn:Es;
      [|discriminate].
    injection Hsnap as ->.
    set (w1 := mkWorld kept (versions_file w) (last_file w)).
    assert (Hs1 : stat [".tbsc"; name v] (root w1) = Return (Dir snap)).
    { unfold root in *. cbn [directory w1]. simpl in Es |- *. unfold kept.
      now rewrite (lookup_filter_keep ishidden) by reflexivity. }
    unfold bind at 1. unfold listdir at 1. unfold bind at 1.
    unfold os_stat at 1. rewrite Hs1. unfold ret at 1.
    rewrite (copy_back_stores [".tbsc"; name v] snap snap w1);
      [reflexivity|discriminate|exact Hs1| |exact Hnd|exact Hkept].
    intros [c x] Hin. now apply lookup_unique.
  - cbn [directory]. intros filename Eh. rewrite Hlook, Eh.
    now destruct (lookup filename snap).
  - cbn [directory]. intros filename Eh. now rewrite Hlook, Eh.
  - cbn [directory]. rewrite Hlook.
    destruct (lookup ".tbsc" snap) as [n|] eqn:En; [|reflexivity].
    exfalso. apply lookup_In in En.
    pose proof (Hfit _ En eq_refl) as Hf. unfold fits in Hf.
    cbn [fst snd] in Hf.
    destruct (resolve_needs_directory _ _ _ _ Hres) as [meta Hmeta].
    destruct n; [now contradiction (Hf meta)|congruence].
Qed.

Lemma apply_restores_visible_entries_witness :
  SC._version_by_commit_checksum "H" dotfile_world
  = (Return (Some (mkVersion "Hello" noon "2017.03.05 - 12.00.00")),
     dotfile_world) /\
  peek [".tbsc"; "2017.03.05 - 12.00.00"] dotfile_world
  = Some (Dir [("FILE", File "x")]) /\
  exists w',
    SC.apply temp "H" dotfile_world = (Return tt, w') /\
    map fst (directory dotfile_world) = ["FILE"; ".tbsc"; ".env"; "BADFILE"] /\
    map fst (directory w') = [".tbsc"; ".env"; "FILE"].
Proof.
  split; [reflexivity|]. split; [reflexivity|].
  destruct (apply_restores_visible_entries temp dotfile_world "H"
              (mkVersion "Hello" noon "2017.03.05 - 12.00.00")
              [("FILE", File "x")] eq_refl eq_refl eq_refl)
    as (w' & Hrun & Hdir & _).
  - repeat constructor. simpl. tauto.
  - intros e [<-|[]]. discriminate.
  - exists w'. split; [exact Hrun|]. split; [reflexivity|].
    rewrite Hdir. reflexivity.
Defined.

(** A snapshot with a file whose name begins with a dot: [apply] copies
    the file over the one kept in the working directory. *)
Lemma apply_restores_dotfile :
  exists w',
    SC.apply temp "H" env_changed = (Return tt, w') /\
    lookup ".env" (directory env_changed) = Some (File "changed") /\
    lookup ".env" (directory w') = Some (File "secret").
Proof. eexists. split; [vm_compute; reflexivity|]. split; reflexivity. Qed.

(** A snapshot that holds a directory whose name begins with a dot: the
    directory is still in the working directory when the snapshot is copied
    back, and [apply] raises after it has cleared the rest. *)
Lemma apply_fails_on_kept_directory :
  exists w',
    SC.apply temp "H" git_commit = (Raise FileExistsError, w') /\
    map fst (directory git_commit) = [".git"; "FILE"; ".tbsc"] /\
    map fst (directory w') = [".git"; ".tbsc"].
Proof. eexists. split; [vm_compute; reflexivity|]. split; reflexivity. Qed.

(** The first check of a tree that has never been committed: the metadata
    directory is created, the decision is to commit, and the version log
    holds the one new record. *)
Lemma first_run_commits :
  exists w',
    Monitor.run 300 noon "Hello" fresh_tree = (Return tt, w') /\
    versions_file w'
    = [("2017.03.05 - 12.00.00",
        mkVersion "Hello" noon "2017.03.05 - 12.00.00")] /\
    peek [".tbsc"; "2017.03.05 - 12.00.00"; "FILE"] w' = Some (File "x").
Proof. eexists. split; [vm_compute; reflexivity|]. split; reflexivity. Qed.

(** * Further properties of the code *)

(** ** The resolver: what it returns and how it fails *)

(** Whatever the resolver returns is one of the versions listed, and its
    checksum starts with the prefix. *)
Lemma resolve_returns_stored
  (w w' : world) (vs : list Version) (p : string) (r : option Version) :
  SC.versions w = (Return vs, w) ->
  SC._version_by_commit_checksum p w = (Return r, w') ->
  w' = w /\
  exists v, r = Some v /\ In v vs /\ startswith (checksum v) p = true.
Proof.
  intros Hvs. rewrite (resolve_run w vs p Hvs).
  destruct (index p (sorted (map checksum vs ++ [p]))) as [i|] eqn:Hi;
    [|discriminate].
  destruct (nth_error (sorted (map checksum vs ++ [p])) (i + 1))
    as [c|] eqn:Hnth; [|discriminate].
  destruct (startswith c p) eqn:Hs; [|discriminate].
  intros [= <- <-]. split; [reflexivity|].
  destruct (successor_least _ _ _ _ Hi Hnth) as (Hin & _).
  destruct (find_checksum vs c Hin) as [v Hfind]. exists v.
  pose proof (find_some _ _ Hfind) as [Hv Hc]. apply String.eqb_eq in Hc.
  repeat split; [exact Hfind|exact Hv|now rewrite Hc].
Qed.

(** With a stored checksum that starts with the prefix, the resolver returns
    a listed version whose checksum is the least such checksum. *)
Lemma resolve_matched (w : world) (vs : list Version) (p : string) (v0 : Version) :
  SC.versions w = (Return vs, w) ->
  In v0 vs -> startswith (checksum v0) p = true ->
  exists v,
    SC._version_by_commit_checksum p w = (Return (Some v), w) /\
    In v vs /\ startswith (checksum v) p = true /\
    le_string p (checksum v) /\
    forall v', In v' vs -> le_string p (checksum v') ->
      le_string (checksum v) (checksum v').
Proof.
  intros Hvs Hv0 Hs0. unfold startswith in *.
  pose proof (prefix_leb _ _ Hs0) as Hle0.
  rewrite (resolve_run w vs p Hvs).
  destruct (index_sorted_total (map checksum vs) p) as [i Hi]. rewrite Hi.
  destruct (nth_error (sorted (map checksum vs ++ [p])) (i + 1))
    as [c|] eqn:Hnth.
  - destruct (successor_least _ _ _ _ Hi Hnth) as (Hin & Hpc & Hleast).
    assert (Hc0 : le_string c (checksum v0)).
    { apply Hleast; [now apply in_map|exact Hle0]. }
    pose proof (prefix_between p c (checksum v0) Hpc Hc0 Hs0) as Hpre.
    unfold startswith. rewrite Hpre.
    destruct (find_checksum vs c Hin) as [v Hfind].
    pose proof (find_some _ _ Hfind) as [Hv Hc].
    apply String.eqb_eq in Hc. exists v. rewrite Hfind, Hc.
    repeat split; auto.
    intros v' Hv' Hle'. apply Hleast; [now apply in_map|exact Hle'].
  - destruct (successor_none _ _ _ Hi Hnth (checksum v0)) as [Hle Hne];
      [now apply in_map|].
    exfalso. apply Hne. now apply String.leb_antisym.
Qed.

(** X1. The resolver never falls off the end of its last loop: a call that
    returns gives a version, one of those the store lists, whose checksum
    starts with the prefix, and it has written nothing. *)
Theorem resolve_returns_a_listed_version
  (w w' : world) (p : string) (r : option Version) :
  SC._version_by_commit_checksum p w = (Return r, w') ->
  w' = w /\
  exists vs v,
    SC.versions w = (Return vs, w) /\
    r = Some v /\ In v vs /\ startswith (checksum v) p = true.
Proof.
  intros Hres.
  destruct (versions_total w (resolve_needs_directory _ _ _ _ Hres))
    as [vs Hvs].
  destruct (resolve_returns_stored w w' vs p r Hvs Hres)
    as (Hw & v & Hr & Hv & Hs).
  split; [exact Hw|]. exists vs, v. auto.
Qed.

Lemma resolve_returns_a_listed_version_witness :
  SC._version_by_commit_checksum "Hello2" two_commits
  = (Return (Some (mkVersion "Hello2" noon4 "2017.03.05 - 12.00.04")),
     two_commits) /\
  exists vs v,
    SC.versions two_commits = (Return vs, two_commits) /\
    Some (mkVersion "Hello2" noon4 "2017.03.05 - 12.00.04") = Some v /\
    In v vs /\ startswith (checksum v) "Hello2" = true.
Proof.
  split; [reflexivity|].
  exact (proj2 (resolve_returns_a_listed_version two_commits two_commits
                  "Hello2" _ eq_refl)).
Defined.

(** X2. The two messages of a failed resolution. When no stored checksum
    starts with the prefix, the resolver raises "No such commit." if some
    stored checksum sorts at or after the prefix, and the list's own "list
    index out of range" if none does, as with an empty store. *)
Theorem resolve_error_message (w : world) (vs : list Version) (p : string) :
  SC.versions w = (Return vs, w) ->
  (forall v, In v vs -> startswith (checksum v) p = false) ->
  SC._version_by_commit_checksum p w
  = (Raise (IndexError
       (if existsb (fun v => String.leb p (checksum v)) vs
        then "No such commit." else "list index out of range")), w).
Proof.
  intros Hvs Hnone. rewrite (resolve_run w vs p Hvs).
  destruct (index_sorted_total (map checksum vs) p) as [i Hi]. rewrite Hi.
  destruct (nth_error (sorted (map checksum vs ++ [p])) (i + 1))
    as [c|] eqn:Hnth.
  - destruct (successor_least _ _ _ _ Hi Hnth) as (Hin & Hpc & _).
    apply in_map_iff in Hin. destruct Hin as (v & <- & Hv).
    rewrite (Hnone v Hv).
    replace (existsb (fun v => String.leb p (checksum v)) vs) with true;
      [reflexivity|].
    symmetry. apply existsb_exists. exists v. split; [exact Hv|exact Hpc].
  - replace (existsb (fun v => String.leb p (checksum v)) vs) with false;
      [reflexivity|].
    symmetry. apply not_true_iff_false. intros Hex.
    apply existsb_exists in Hex. destruct Hex as (v & Hv & Hle).
    destruct (successor_none _ _ _ Hi Hnth (checksum v)) as [Hvp Hne];
      [now apply in_map|].
    apply Hne. now apply String.leb_antisym.
Qed.

Lemma resolve_error_message_witness :
  SC.versions two_commits
  = (Return (map snd (versions_file two_commits)), two_commits) /\
  SC._version_by_commit_checksum "A" two_commits
  = (Raise (IndexError "No such commit."), two_commits) /\
  SC._version_by_commit_checksum "Z" two_commits
  = (Raise (IndexError "list index out of range"), two_commits).
Proof.
  assert (Hnone : forall q, q = "A" \/ q = "Z" ->
            forall v, In v (map snd (versions_file two_commits)) ->
              startswith (checksum v) q = false).
  { intros q [->| ->] v [<-|[<-|[]]]; reflexivity. }
  split; [reflexivity|]. split.
  - exact (resolve_error_message two_commits _ "A" eq_refl
             (Hnone "A" (or_introl eq_refl))).
  - exact (resolve_error_message two_commits _ "Z" eq_refl
             (Hnone "Z" (or_intror eq_refl))).
Defined.

(** X3. The empty prefix resolves to a version with the least checksum of
    the store, whenever the store holds a version. *)
Theorem resolve_empty_prefix (w : world) (vs : list Version) (v0 : Version) :
  SC.versions w = (Return vs, w) ->
  In v0 vs ->
  exists v,
    SC._version_by_commit_checksum "" w = (Return (Some v), w) /\
    In v vs /\
    forall v', In v' vs -> le_string (checksum v) (checksum v').
Proof.
  intros Hvs Hv0.
  destruct (resolve_matched w vs "" v0 Hvs Hv0) as (v & Hres & Hv & _ & _ & Hleast).
  { unfold startswith. now destruct (checksum v0). }
  exists v. repeat split; [exact Hres|exact Hv|].
  intros v' Hv'. apply Hleast; [exact Hv'|apply leb_nil_l].
Qed.

Lemma resolve_empty_prefix_witness :
  SC.versions two_commits
  = (Return (map snd (versions_file two_commits)), two_commits) /\
  exists v,
    SC._version_by_commit_checksum "" two_commits
    = (Return (Some v), two_commits) /\
    In v (map snd (versions_file two_commits)) /\
    forall v', In v' (map snd (versions_file two_commits)) ->
      le_string (checksum v) (checksum v').
Proof.
  split; [reflexivity|].
  apply (resolve_empty_prefix two_commits _
           (mkVersion "Hello" noon "2017.03.05 - 12.00.00") eq_refl).
  now left.
Defined.

(** ** Remove and apply: failures and what follows a removal *)

(** X4. When no stored checksum starts with the prefix, [remove] raises the
    error of the resolver and writes nothing: the version log is as it was. *)
Theorem remove_unresolved_unchanged (w : world) (vs : list Version) (p : string) :
  SC.versions w = (Return vs, w) ->
  (forall v, In v vs -> startswith (checksum v) p = false) ->
  exists msg, SC.remove p w = (Raise (IndexError msg), w).
Proof.
  intros Hvs Hnone.
  destruct (resolve_unmatched w vs p Hvs Hnone) as [msg Hmsg].
  exists msg. unfold SC.remove. now apply bind_Raise.
Qed.

Lemma remove_unresolved_unchanged_witness :
  SC.versions two_commits
  = (Return (map snd (versions_file two_commits)), two_commits) /\
  (forall v, In v (map snd (versions_file two_commits)) ->
     startswith (checksum v) "World" = false) /\
  exists msg,
    SC.remove "World" two_commits = (Raise (IndexError msg), two_commits).
Proof.
  assert (Hnone : forall v, In v (map snd (versions_file two_commits)) ->
                    startswith (checksum v) "World" = false).
  { intros v [<-|[<-|[]]]; reflexivity. }
  split; [reflexivity|]. split; [exact Hnone|].
  exact (remove_unresolved_unchanged two_commits _ "World" eq_refl Hnone).
Defined.

(** What [remove] does once the prefix has resolved. *)
Lemma remove_run (w : world) (p : string) (v : Version) :
  NoDup (map fst (versions_file w)) ->
  SC._version_by_commit_checksum p w = (Return (Some v), w) ->
  SC.remove p w
  = (Return tt,
     mkWorld (directory w)
       (filter (fun e => negb (String.eqb (checksum (snd e)) (checksum v)))
          (versions_file w))
       (last_file w)).
Proof.
  intros Hnd Hres.
  pose proof (resolve_needs_directory _ _ _ _ Hres) as Hdir.
  unfold SC.remove. rewrite (bind_Return _ _ _ _ _ Hres).
  rewrite (bind_Return _ _ _ _ _ (shelve_open_ok w Hdir)).
  unfold bind at 1. unfold get_versions at 1.
  rewrite remove_loop; [|exact Hnd|exact Hnd|apply incl_refl].
  f_equal. f_equal. apply filter_ext_in. intros e He.
  replace (existsb (String.eqb (fst e)) (map fst (versions_file w)))
    with true; [reflexivity|].
  symmetry. apply existsb_exists. exists (fst e).
  split; [now apply in_map|apply String.eqb_refl].
Qed.

(** X5. After a removal no prefix resolves to the removed checksum any more:
    a later resolution returns a version with another checksum, or raises.
    So the same prefix may then resolve to the next checksum it begins. *)
Theorem remove_then_resolve_other
  (w : world) (p q : string) (v : Version) (r : option Version) (w2 : world) :
  NoDup (map fst (versions_file w)) ->
  SC._version_by_commit_checksum p w = (Return (Some v), w) ->
  SC._version_by_commit_checksum q (snd (SC.remove p w)) = (Return r, w2) ->
  exists v',
    r = Some v' /\ checksum v' <> checksum v /\
    In v' (map snd (versions_file w)).
Proof.
  intros Hnd Hres Hq.
  rewrite (remove_run w p v Hnd Hres) in Hq. cbn [snd] in Hq.
  set (w1 := mkWorld _ _ _) in Hq.
  assert (Hvs : SC.versions w1 = (Return (map snd (versions_file w1)), w1)).
  { apply versions_records.
    - exact (resolve_needs_directory _ _ _ _ Hres).
    - cbn [versions_file w1]. now apply NoDup_filter_keys. }
  destruct (resolve_returns_stored w1 w2 _ q r Hvs Hq) as (_ & v' & Hr & Hv' & _).
  exists v'. split; [exact Hr|].
  cbn [versions_file w1] in Hv'. apply in_map_iff in Hv'.
  destruct Hv' as (e & <- & He). apply filter_In in He.
  destruct He as [Hin He]. split.
  - now apply negb_true_iff, String.eqb_neq in He.
  - now apply in_map.
Qed.

Lemma remove_then_resolve_other_witness :
  NoDup (map fst (versions_file three_commits)) /\
  SC._version_by_commit_checksum "H" three_commits
  = (Return (Some (mkVersion "Hello" noon "2017.03.05 - 12.00.00")),
     three_commits) /\
  exists v',
    SC._version_by_commit_checksum "H" (snd (SC.remove "H" three_commits))
    = (Return (Some v'), snd (SC.remove "H" three_commits)) /\
    checksum v' = "Hello2".
Proof.
  assert (Hnd : NoDup (map fst (versions_file three_commits))).
  { vm_compute. repeat constructor; simpl; intuition discriminate. }
  split; [exact Hnd|]. split; [reflexivity|].
  destruct (remove_then_resolve_other three_commits "H" "H"
              (mkVersion "Hello" noon "2017.03.05 - 12.00.00")
              (Some (mkVersion "Hello2" noon4 "2017.03.05 - 12.00.04"))
              (snd (SC.remove "H" three_commits)) Hnd eq_refl eq_refl)
    as (v' & Hr & _ & _).
  exists v'. injection Hr as <-. split; reflexivity.
Defined.

(** What [apply] does once the prefix has resolved: it copies the snapshot
    into what the clearing has left. *)
Lemma apply_after_resolve_cleared (self : folder) (w : world) (p : string)
  (v : Version) :
  SC._version_by_commit_checksum p w = (Return (Some v), w) ->
  SC.apply self p w
  = SC._copy_to_working_directory [".tbsc"; name v]
      (mkWorld (cleared self (directory w)) (versions_file w) (last_file w)).
Proof.
  intros Hres. unfold SC.apply. rewrite (bind_Return _ _ _ _ _ Hres).
  now rewrite (bind_Return _ _ _ _ _ (clear_run self w)).
Qed.

Lemma apply_after_resolve (self : folder) (w : world) (p : string)
  (v : Version) :
  has_magic (folder_path self) = false ->
  SC._version_by_commit_checksum p w = (Return (Some v), w) ->
  SC.apply self p w
  = SC._copy_to_working_directory [".tbsc"; name v]
      (mkWorld (filter (fun e => ishidden (fst e)) (directory w))
         (versions_file w) (last_file w)).
Proof.
  intros Hplain Hres. rewrite (apply_after_resolve_cleared self w p v Hres).
  now rewrite cleared_plain.
Qed.

Lemma stat_cleared (c : string) (rest : list string) (w : world) :
  ishidden c = true ->
  stat (c :: rest)
    (root (mkWorld (filter (fun e => ishidden (fst e)) (directory w))
             (versions_file w) (last_file w)))
  = stat (c :: rest) (root w).
Proof.
  intros Hc. unfold root. cbn [directory]. simpl.
  now rewrite (lookup_filter_keep ishidden) by exact Hc.
Qed.

(** X6. In a directory whose path holds no pattern character of glob,
    [_clear_working_directory] returns. It leaves the entries whose names
    begin with a dot, the metadata directory among them, deletes all the
    others, writes to neither database, and clearing again changes nothing
    more. *)
Theorem clear_keeps_dot_names (self : folder) (w : world) :
  has_magic (folder_path self) = false ->
  exists w',
    SC._clear_working_directory self w = (Return tt, w') /\
    (forall filename,
       lookup filename (directory w') =
       if ishidden filename then lookup filename (directory w) else None) /\
    versions_file w' = versions_file w /\
    last_file w' = last_file w /\
    SC._clear_working_directory self w' = (Return tt, w').
Proof.
  intros Hplain.
  eexists. split; [now apply clear_working_directory_hidden|].
  cbn [directory versions_file last_file]. repeat split.
  - intros filename. destruct (ishidden filename) eqn:Eh.
    + now apply (lookup_filter_keep ishidden).
    + now apply (lookup_filter_drop ishidden).
  - rewrite clear_working_directory_hidden by exact Hplain.
    cbn [directory versions_file last_file]. f_equal. f_equal.
    rewrite filter_twice. apply filter_ext. intros e. apply andb_diag.
Qed.

Lemma clear_keeps_dot_names_witness :
  has_magic (folder_path temp) = false /\
  exists w',
    SC._clear_working_directory temp dotfile_world = (Return tt, w') /\
    map fst (directory dotfile_world) = ["FILE"; ".tbsc"; ".env"; "BADFILE"] /\
    map fst (directory w') = [".tbsc"; ".env"].
Proof.
  split; [reflexivity|].
  destruct (clear_keeps_dot_names temp dotfile_world eq_refl)
    as (w' & Hrun & _).
  exists w'. split; [exact Hrun|]. split; [reflexivity|].
  vm_compute in Hrun. injection Hrun as <-. reflexivity.
Defined.

(** X7. [apply] clears before it looks at the snapshot. In a directory
    whose path holds no pattern character of glob, when the prefix resolves
    to a version whose snapshot directory is missing (or is a file), [apply]
    raises [FileNotFoundError] (or [NotADirectoryError]) and the working
    directory is left with its dot-named entries only. *)
Theorem apply_without_snapshot_clears (self : folder) (w : world) (p : string)
  (v : Version) :
  has_magic (folder_path self) = false ->
  SC._version_by_commit_checksum p w = (Return (Some v), w) ->
  (forall snap, peek [".tbsc"; name v] w <> Some (Dir snap)) ->
  exists e,
    SC.apply self p w
    = (Raise e,
       mkWorld (filter (fun e => ishidden (fst e)) (directory w))
         (versions_file w) (last_file w)) /\
    (e = FileNotFoundError \/ e = NotADirectoryError) /\
    (peek [".tbsc"; name v] w = None -> e = FileNotFoundError).
Proof.
  intros Hplain Hres Hno. rewrite (apply_after_resolve self w p v Hplain Hres).
  destruct (resolve_needs_directory _ _ _ _ Hres) as [meta Hmeta].
  unfold SC._copy_to_working_directory, bind, listdir, bind, os_stat.
  rewrite stat_cleared by reflexivity.
  unfold peek, peek_in in Hno |- *. unfold root in *. simpl in *.
  rewrite Hmeta in *.
  destruct (lookup (name v) meta) as [[data|snap]|].
  - exists NotADirectoryError. split; [reflexivity|].
    split; [now right|discriminate].
  - exfalso. now apply (Hno snap).
  - exists FileNotFoundError. split; [reflexivity|]. split; [now left|reflexivity].
Qed.

Lemma apply_without_snapshot_clears_witness :
  SC._version_by_commit_checksum "H" lost_snapshot
  = (Return (Some (mkVersion "Hello" noon "2017.03.05 - 12.00.00")),
     lost_snapshot) /\
  (forall snap,
     peek [".tbsc"; "2017.03.05 - 12.00.00"] lost_snapshot <> Some (Dir snap)) /\
  exists w',
    SC.apply temp "H" lost_snapshot = (Raise FileNotFoundError, w') /\
    map fst (directory lost_snapshot) = ["FILE"; ".tbsc"] /\
    map fst (directory w') = [".tbsc"].
Proof.
  assert (Hno : forall snap,
            peek [".tbsc"; "2017.03.05 - 12.00.00"] lost_snapshot
            <> Some (Dir snap)) by (intros snap; discriminate).
  split; [reflexivity|]. split; [exact Hno|].
  destruct (apply_without_snapshot_clears temp lost_snapshot "H"
              (mkVersion "Hello" noon "2017.03.05 - 12.00.00")
              eq_refl eq_refl Hno)
    as (e & Hrun & _ & Hmissing).
  rewrite (Hmissing eq_refl) in Hrun.
  eexists. split; [exact Hrun|]. split; reflexivity.
Defined.

(** X8. [apply] writes to the tree only: the version log and the last commit
    state are as they were, whether [apply] returns or raises. *)
Theorem apply_leaves_databases (self : folder) (commit : string) (w : world) :
  versions_file (snd (SC.apply self commit w)) = versions_file w /\
  last_file (snd (SC.apply self commit w)) = last_file w.
Proof.
  split.
  - apply (fun H => H w).
    change (preserves versions_file (SC.apply self commit)).
    unfold SC.apply. frame;
      first [apply preserves_clear|apply preserves_copy_back];
      apply tree_blind_versions_file.
  - apply (fun H => H w).
    change (preserves last_file (SC.apply self commit)).
    unfold SC.apply. frame;
      first [apply preserves_clear|apply preserves_copy_back];
      apply tree_blind_last_file.
Qed.

(** ** What a check of the monitor does to the working files *)

Section Within.

Context (R : world -> world -> Prop).
Context (Rrefl : forall w, R w w).
Context (Rtrans : forall w1 w2 w3, R w1 w2 -> R w2 w3 -> R w1 w3).

Lemma within_read {A : Type} (m : M A) :
  preserves (fun w => w) m -> within R m.
Proof. intros H w. rewrite (H w). apply Rrefl. Qed.

Lemma within_ret {A : Type} (a : A) : within R (ret a).
Proof. intros w. apply Rrefl. Qed.

Lemma within_raise {A : Type} (e : exn) : within R (@raise A e).
Proof. intros w. apply Rrefl. Qed.

Lemma within_bind {A B : Type} (m : M A) (k : A -> M B) :
  within R m -> (forall a, within R (k a)) -> within R (bind m k).
Proof.
  intros Hm Hk w. unfold bind. specialize (Hm w).
  destruct (m w) as [[a|e] w']; simpl in *; [|exact Hm].
  eapply Rtrans; [exact Hm|apply Hk].
Qed.

Lemma within_when (c : bool) (m : M unit) : within R m -> within R (when c m).
Proof. intros H. destruct c; [exact H|apply within_ret]. Qed.

Lemma within_for_each {A : Type} (l : list A) (body : A -> M unit) :
  (forall x, within R (body x)) -> within R (for_each l body).
Proof.
  intros H. induction l as [|x l IH]; simpl.
  - apply within_ret.
  - apply within_bind; auto.
Qed.

Lemma within_except {A : Type} (m handler : M A) :
  within R m -> within R handler -> within R (except_FileExistsError m handler).
Proof.
  intros Hm Hh w. unfold except_FileExistsError. specialize (Hm w).
  destruct (m w) as [[a|e] w']; simpl in *; [exact Hm|].
  destruct e; simpl; try exact Hm. eapply Rtrans; [exact Hm|apply Hh].
Qed.

End Within.

(** Split a method as [frame] does; the calls that only read are closed,
    the writes are left. *)
Ltac within_frame :=
  repeat first
    [ apply within_read; [assumption|solve [frame]]
    | lazymatch goal with
      | |- within _ (bind _ _) => apply within_bind; [assumption| |intros ?]
      | |- within _ (when _ _) => apply within_when; [assumption|]
      | |- within _ (for_each _ _) =>
          apply within_for_each; [assumption|assumption|intros ?]
      | |- within _ (except_FileExistsError _ _) =>
          apply within_except; [assumption| |]
      | |- within _ (ret _) => apply within_ret; assumption
      | |- within _ (raise _) => apply within_raise; assumption
      | |- within _ (match ?x with _ => _ end) => destruct x
      end ].

Lemma same_working_files_refl (w : world) : same_working_files w w.
Proof. split; auto. Qed.

Lemma same_working_files_trans (w1 w2 w3 : world) :
  same_working_files w1 w2 -> same_working_files w2 w3 ->
  same_working_files w1 w3.
Proof.
  intros [H12 D12] [H23 D23]. split; [|auto].
  intros filename Hne. now rewrite H23, H12.
Qed.

Lemma modify_Dir (path : list string) (g : listing -> listing) (n n' : node) :
  modify path g n = Some n' -> exists es, n' = Dir es.
Proof.
  destruct n as [data|es]; [destruct path; discriminate|].
  destruct path as [|c rest]; simpl.
  - intros [= <-]. eauto.
  - destruct (lookup c es) as [child|]; [|discriminate].
    destruct (modify rest g child); [|discriminate].
    intros [= <-]. eauto.
Qed.

(** A write below the metadata directory. *)
Lemma change_under_tbsc (rest : list string) (g : listing -> listing) :
  within same_working_files (change (".tbsc" :: rest) g).
Proof.
  intros w. unfold change, bind, os_stat.
  destruct (stat (".tbsc" :: rest) (root w)) as [[data|es]|e];
    try apply same_working_files_refl.
  unfold root. simpl.
  destruct (lookup ".tbsc" (directory w)) as [child|] eqn:E;
    [|apply same_working_files_refl].
  destruct (modify rest g child) as [child'|] eqn:Em;
    [|apply same_working_files_refl].
  simpl. split; cbn [directory].
  - intros filename Hne. now apply lookup_store_other.
  - intros _. destruct (modify_Dir _ _ _ _ Em) as [es' ->].
    exists es'. apply lookup_store_same.
Qed.

Lemma lookup_single {A : Type} (key k : string) (x : A) :
  lookup key [(k, x)] = if String.eqb k key then Some x else None.
Proof. unfold lookup. cbn [find fst]. now destruct (String.eqb k key). Qed.

(** The making of the metadata directory itself. *)
Lemma mkdir_tbsc : within same_working_files (os_mkdir [] ".tbsc").
Proof.
  intros w. unfold os_mkdir, bind, os_stat. cbn [stat root].
  destruct (lookup ".tbsc" (directory w)) as [child|] eqn:E;
    [apply same_working_files_refl|].
  rewrite change_top. split; cbn [snd directory].
  - intros filename Hne. rewrite lookup_app.
    destruct (lookup filename (directory w)); [reflexivity|].
    rewrite lookup_single.
    destruct (String.eqb_spec ".tbsc" filename); [congruence|reflexivity].
  - intros [es Hes]. congruence.
Qed.

Lemma mkdir_under_tbsc (rest : list string) (c : string) :
  within same_working_files (os_mkdir (".tbsc" :: rest) c).
Proof.
  unfold os_mkdir.
  pose proof same_working_files_refl. pose proof same_working_files_trans.
  within_frame. apply change_under_tbsc.
Qed.

(** The copy of a commit into a directory [.tbsc/version_name]. *)
Lemma commit_same_working_files (version_name : string) :
  within same_working_files (Monitor._commit [".tbsc"; version_name]).
Proof.
  pose proof same_working_files_refl as Hrefl.
  pose proof same_working_files_trans as Htrans.
  unfold Monitor._commit. within_frame.
  - cbn [makedirs app]. within_frame.
    + apply mkdir_tbsc.
    + apply mkdir_under_tbsc.
  - unfold copy2. within_frame.
    all: repeat match goal with
                | |- context [if ?b then _ else _] => destruct b
                end.
    all: cbn [app removelast last]; unfold write; apply change_under_tbsc.
  - unfold copytree. within_frame.
    + cbn [makedirs app]. within_frame.
      * apply mkdir_tbsc.
      * apply mkdir_under_tbsc.
      * apply mkdir_under_tbsc.
    + unfold write. apply change_under_tbsc.
Qed.

Lemma put_versions_same_working_files (db : list (string * Version)) :
  within same_working_files (put_versions db).
Proof. intros w. split; [reflexivity|intros H; exact H]. Qed.

Lemma put_last_same_working_files (l : Last) :
  within same_working_files (put_last l).
Proof. intros w. split; [reflexivity|intros H; exact H]. Qed.

Lemma run_same_working_files (frequency : Z) (now : datetime) (c : string) :
  within same_working_files (Monitor.run frequency now c).
Proof.
  pose proof same_working_files_refl as Hrefl.
  pose proof same_working_files_trans as Htrans.
  unfold Monitor.run. within_frame.
  - apply mkdir_tbsc.
  - apply within_read; [assumption|apply should_backup_reads].
  - unfold Monitor._update_time_and_hash. within_frame.
    apply put_last_same_working_files.
  - unfold Monitor._backup. within_frame.
    + apply put_versions_same_working_files.
    + apply commit_same_working_files.
Qed.

(** X9. A check of the monitor never touches the working files: whatever
    [run] decides and however it ends, every top-level entry other than the
    metadata directory is the node it was, and a metadata directory that was
    there is still there. *)
Theorem run_leaves_working_files
  (frequency : Z) (now : datetime) (c : string) (w : world) :
  (forall filename, filename <> ".tbsc" ->
     lookup filename (directory (snd (Monitor.run frequency now c w)))
     = lookup filename (directory w)) /\
  (tabasco_directory_exists w ->
   tabasco_directory_exists (snd (Monitor.run frequency now c w))).
Proof.
  destruct (run_same_working_files frequency now c w) as [Hfiles Hmeta].
  split; [exact Hfiles|exact Hmeta].
Qed.

(** ** The checks of the monitor, one after the other *)

(** [run] by the decision it takes. *)
Lemma run_cases (frequency : Z) (now : datetime) (c : string) (w : world) :
  Monitor.run frequency now c w =
  match fst (Monitor._should_backup frequency now c (prepared w)) with
  | Return true =>
      (Monitor._update_time_and_hash now c ;;
       except_FileExistsError (Monitor._backup now c)
         (raise (RuntimeError
            "Commit failed - a commit with the same name already exists.")))
        (prepared w)
  | Return false => (Return tt, prepared w)
  | Raise e => (Raise e, prepared w)
  end.
Proof.
  unfold Monitor.run.
  change (e <- exists_ [".tbsc"] ;;
          when (negb e) (os_mkdir [] ".tbsc") ;;
          b <- Monitor._should_backup frequency now c ;;
          when b
            (Monitor._update_time_and_hash now c ;;
             except_FileExistsError (Monitor._backup now c)
               (raise (RuntimeError
                  "Commit failed - a commit with the same name already exists."))))
    with (bind (e <- exists_ [".tbsc"] ;; when (negb e) (os_mkdir [] ".tbsc"))
            (fun _ =>
               b <- Monitor._should_backup frequency now c ;;
               when b
                 (Monitor._update_time_and_hash now c ;;
                  except_FileExistsError (Monitor._backup now c)
                    (raise (RuntimeError
                       "Commit failed - a commit with the same name already exists."))))).
  rewrite (bind_Return _ _ _ _ _ (prepared_returns w)).
  pose proof (should_backup_reads frequency now c (prepared w)) as Hsame.
  unfold bind at 1.
  destruct (Monitor._should_backup frequency now c (prepared w))
    as [[b|e] w1]; simpl in Hsame; subst w1; simpl; [|reflexivity].
  now destruct b.
Qed.

Lemma prepared_exists (w : world) :
  tabasco_directory_exists w -> prepared w = w.
Proof.
  intros [es H]. unfold prepared, bind, exists_, root. simpl. now rewrite H.
Qed.

(** [_backup] stores the record, then copies. *)
Lemma backup_run (now : datetime) (c : string) (w : world) :
  tabasco_directory_exists w ->
  Monitor._backup now c w
  = Monitor._commit [".tbsc"; strftime now]
      (mkWorld (directory w)
         (store (strftime now) (mkVersion c now (strftime now))
            (versions_file w))
         (last_file w)).
Proof.
  intros Hdir. unfold Monitor._backup.
  rewrite (bind_Return _ _ _ _ _ (shelve_open_ok w Hdir)). reflexivity.
Qed.

(** What a check that decides to commit leaves in the two databases,
    whatever the copy does. *)
Lemma run_commit_databases (frequency : Z) (now : datetime) (c : string)
  (w : world) :
  fst (Monitor._should_backup frequency now c (prepared w)) = Return true ->
  versions_file (snd (Monitor.run frequency now c w))
  = store (strftime now) (mkVersion c now (strftime now)) (versions_file w)
  /\
  last_file (snd (Monitor.run frequency now c w))
  = mkLast (Some c) (Some now) (Some (strftime now)) /\
  tabasco_directory_exists (snd (Monitor.run frequency now c w)).
Proof.
  intros Hdec.
  assert (Hdir : tabasco_directory_exists (prepared w)).
  { destruct (Monitor._should_backup frequency now c (prepared w))
      as [r w1] eqn:E. simpl in Hdec. subst r.
    exact (should_backup_needs_directory _ _ _ _ _ _ E). }
  assert (Hv0 : versions_file (prepared w) = versions_file w).
  { unfold prepared.
    apply (preserves_bind versions_file); [frame|]. intros e.
    apply preserves_when, preserves_os_mkdir, tree_blind_versions_file. }
  split; [|split].
  - rewrite run_cases, Hdec.
    rewrite (bind_Return _ _ _ _ _ (update_writes_last now c _ Hdir)).
    set (w2 := mkWorld _ _ _).
    assert (Hdir2 : tabasco_directory_exists w2) by exact Hdir.
    rewrite <- Hv0. change (versions_file (prepared w)) with (versions_file w2).
    unfold except_FileExistsError. rewrite (backup_run now c w2 Hdir2).
    set (w3 := mkWorld _ _ _).
    pose proof (preserves_commit versions_file tree_blind_versions_file
                  [".tbsc"; strftime now] w3) as Hc.
    destruct (Monitor._commit [".tbsc"; strftime now] w3) as [[u|e] w4];
      simpl in Hc |- *; [exact Hc|].
    destruct e; exact Hc.
  - rewrite run_cases, Hdec.
    rewrite (bind_Return _ _ _ _ _ (update_writes_last now c _ Hdir)).
    set (w2 := mkWorld _ _ _).
    change (mkLast (Some c) (Some now) (Some (strftime now)))
      with (last_file w2).
    apply (preserves_except last_file); [apply backup_last_file|frame].
  - rewrite run_cases, Hdec.
    rewrite (bind_Return _ _ _ _ _ (update_writes_last now c _ Hdir)).
    set (w2 := mkWorld _ _ _).
    assert (Hdir2 : tabasco_directory_exists w2) by exact Hdir.
    assert (Hw : within same_working_files
              (except_FileExistsError (Monitor._backup now c)
                 (raise (RuntimeError
                    "Commit failed - a commit with the same name already exists.")))).
    { pose proof same_working_files_refl as Hrefl.
      pose proof same_working_files_trans as Htrans.
      unfold Monitor._backup. within_frame.
      - apply put_versions_same_working_files.
      - apply commit_same_working_files. }
    exact (proj2 (Hw w2) Hdir2).
Qed.

Lemma should_backup_run (frequency : Z) (now : datetime) (c : string)
  (w : world) (c0 : string) (t0 : datetime) :
  tabasco_directory_exists w ->
  last_checksum (last_file w) = Some c0 ->
  last_time (last_file w) = Some t0 ->
  Monitor._should_backup frequency now c w
  = (Return (Qle_bool (inject_Z frequency)
               (total_seconds (datetime_sub now t0))
             && negb (String.eqb c c0)), w).
Proof.
  intros Hdir Hc Ht. unfold Monitor._should_backup.
  rewrite (bind_Return _ _ _ _ _ (shelve_open_ok w Hdir)).
  unfold bind, get_last. rewrite Hc, Ht. reflexivity.
Qed.

(** X10. Once a check has decided to commit a checksum, no later check
    commits the same checksum again, whatever its time and frequency: the
    later check returns and writes nothing. This holds as well when the copy
    of the first check failed. *)
Theorem run_same_checksum_never_recommits
  (frequency : Z) (now : datetime) (c : string) (w : world)
  (frequency' : Z) (now' : datetime) :
  fst (Monitor._should_backup frequency now c (prepared w)) = Return true ->
  Monitor.run frequency' now' c (snd (Monitor.run frequency now c w))
  = (Return tt, snd (Monitor.run frequency now c w)).
Proof.
  intros Hdec.
  destruct (run_commit_databases frequency now c w Hdec) as (_ & Hlast & Hdir).
  set (w1 := snd (Monitor.run frequency now c w)) in *.
  rewrite run_cases, (prepared_exists w1 Hdir).
  rewrite (should_backup_run frequency' now' c w1 c now Hdir);
    [|now rewrite Hlast|now rewrite Hlast].
  cbn [fst]. rewrite String.eqb_refl, andb_false_r. reflexivity.
Qed.

Lemma run_same_checksum_never_recommits_witness :
  fst (Monitor._should_backup 0 noon "World" (prepared folder_commit))
  = Return true /\
  fst (Monitor.run 0 noon "World" folder_commit)
  = Raise (RuntimeError
      "Commit failed - a commit with the same name already exists.") /\
  Monitor.run 0 noon8 "World" (snd (Monitor.run 0 noon "World" folder_commit))
  = (Return tt, snd (Monitor.run 0 noon "World" folder_commit)).
Proof.
  split; [reflexivity|]. split; [reflexivity|].
  exact (run_same_checksum_never_recommits 0 noon "World" folder_commit
           0 noon8 eq_refl).
Defined.

(** X11. With a last commit on record, a check whose checksum is the
    recorded one, or that comes before the frequency has elapsed, returns
    and writes nothing at all: a change made and undone within the window
    leaves no trace. *)
Theorem run_without_commit_writes_nothing
  (frequency : Z) (now : datetime) (c : string) (w : world)
  (c0 : string) (t0 : datetime) :
  tabasco_directory_exists w ->
  last_checksum (last_file w) = Some c0 ->
  last_time (last_file w) = Some t0 ->
  c = c0 \/ (total_seconds (datetime_sub now t0) < inject_Z frequency)%Q ->
  Monitor.run frequency now c w = (Return tt, w).
Proof.
  intros Hdir Hc Ht Hwhy.
  rewrite run_cases, (prepared_exists w Hdir).
  rewrite (should_backup_run frequency now c w c0 t0 Hdir Hc Ht). cbn [fst].
  replace (Qle_bool (inject_Z frequency) (total_seconds (datetime_sub now t0))
           && negb (String.eqb c c0)) with false; [reflexivity|].
  symmetry. apply andb_false_iff. destruct Hwhy as [->|Hlt].
  - right. now rewrite String.eqb_refl.
  - left. apply not_true_is_false. rewrite Qle_bool_iff.
    now apply Qlt_not_le.
Qed.

Lemma run_without_commit_writes_nothing_witness :
  tabasco_directory_exists one_commit /\
  Monitor.run 300 noon4 "Changed" one_commit = (Return tt, one_commit).
Proof.
  assert (Hdir : tabasco_directory_exists one_commit).
  { eexists. vm_compute. reflexivity. }
  split; [exact Hdir|].
  apply (run_without_commit_writes_nothing 300 noon4 "Changed" one_commit
           "Hello" noon Hdir eq_refl eq_refl).
  right. vm_compute. reflexivity.
Defined.

(** ** The version log *)

Lemma store_In {A : Type} (key : string) (x : A) (d : list (string * A))
  (k : string) (y : A) :
  In (k, y) (store key x d) -> (k = key /\ y = x) \/ In (k, y) d.
Proof.
  induction d as [|[k' z] d IH]; simpl.
  - intros [[= <- <-]|[]]. now left.
  - destruct (String.eqb_spec k' key) as [->|Hne]; simpl.
    + intros [[= <- <-]|H]; [now left|now right; right].
    + intros [H|H]; [now right; left|].
      destruct (IH H) as [H'|H']; [now left|now right; right].
Qed.

Lemma store_keys {A : Type} (key : string) (x : A) (d : list (string * A)) :
  map fst (store key x d)
  = if existsb (String.eqb key) (map fst d) then map fst d
    else map fst d ++ [key].
Proof.
  induction d as [|[k' z] d IH]; simpl; [reflexivity|].
  rewrite (String.eqb_sym key k').
  destruct (String.eqb k' key); simpl; [reflexivity|].
  rewrite IH. now destruct (existsb (String.eqb key) (map fst d)).
Qed.

Lemma store_well_formed (v : Version) (db : list (string * Version)) :
  well_formed_log db -> well_formed_log (store (name v) v db).
Proof.
  intros [Hnd Hname]. split.
  - rewrite store_keys.
    destruct (existsb (String.eqb (name v)) (map fst db)) eqn:E; [exact Hnd|].
    apply NoDup_app; [exact Hnd|repeat constructor; intros []|].
    intros k Hk [<-|[]]. apply not_true_iff_false in E. apply E.
    apply existsb_exists. exists (name v). split; [exact Hk|apply String.eqb_refl].
  - intros k y Hin. apply store_In in Hin.
    destruct Hin as [[-> ->]|Hin]; [reflexivity|now apply Hname].
Qed.

Lemma filter_well_formed (g : string * Version -> bool)
  (db : list (string * Version)) :
  well_formed_log db -> well_formed_log (filter g db).
Proof.
  intros [Hnd Hname]. split; [now apply NoDup_filter_keys|].
  intros k y Hin. apply filter_In in Hin. now apply Hname.
Qed.

Lemma prepared_versions_file (w : world) :
  versions_file (prepared w) = versions_file w.
Proof.
  unfold prepared.
  apply (preserves_bind versions_file); [frame|]. intros e.
  apply preserves_when, preserves_os_mkdir, tree_blind_versions_file.
Qed.

(** The version log after a check. *)
Lemma run_versions_file (frequency : Z) (now : datetime) (c : string)
  (w : world) :
  versions_file (snd (Monitor.run frequency now c w)) =
  match fst (Monitor._should_backup frequency now c (prepared w)) with
  | Return true =>
      store (strftime now) (mkVersion c now (strftime now)) (versions_file w)
  | _ => versions_file w
  end.
Proof.
  destruct (fst (Monitor._should_backup frequency now c (prepared w)))
    as [[|]|e] eqn:Hdec.
  - now destruct (run_commit_databases frequency now c w Hdec).
  - rewrite run_cases, Hdec. apply prepared_versions_file.
  - rewrite run_cases, Hdec. apply prepared_versions_file.
Qed.

(** X12. A check changes the version log in one way only: when it decides
    to commit it stores the record (checksum, now, name) under the name
    computed from [now], before the copy and whatever the copy does. Every
    record under another name stays as it is. *)
Theorem run_stores_one_record
  (frequency : Z) (now : datetime) (c : string) (w : world) :
  (forall k, k <> strftime now ->
     lookup k (versions_file (snd (Monitor.run frequency now c w)))
     = lookup k (versions_file w)) /\
  (fst (Monitor._should_backup frequency now c (prepared w)) = Return true ->
   lookup (strftime now) (versions_file (snd (Monitor.run frequency now c w)))
   = Some (mkVersion c now (strftime now))) /\
  (fst (Monitor._should_backup frequency now c (prepared w)) <> Return true ->
   versions_file (snd (Monitor.run frequency now c w)) = versions_file w).
Proof.
  rewrite run_versions_file.
  destruct (fst (Monitor._should_backup frequency now c (prepared w)))
    as [[|]|e]; repeat split; try reflexivity; try congruence.
  - intros k Hk. now apply lookup_store_other.
  - intros _. apply lookup_store_same.
Qed.

(** X13. The version log keeps one record per name, each stored under its
    own name: a log of this form is of this form after a check of the
    monitor, after [remove] and after [apply], however they end. *)
Theorem log_stays_well_formed (w : world) :
  well_formed_log (versions_file w) ->
  (forall frequency now c,
     well_formed_log (versions_file (snd (Monitor.run frequency now c w)))) /\
  (forall commit, well_formed_log (versions_file (snd (SC.remove commit w)))) /\
  (forall self commit,
     well_formed_log (versions_file (snd (SC.apply self commit w)))).
Proof.
  intros Hwf. split; [|split].
  - intros frequency now c. rewrite run_versions_file.
    destruct (fst (Monitor._should_backup frequency now c (prepared w)))
      as [[|]|e]; try exact Hwf.
    exact (store_well_formed (mkVersion c now (strftime now)) _ Hwf).
  - intros commit.
    destruct (SC._version_by_commit_checksum commit w) as [[r|e] w1] eqn:Hres.
    + destruct (versions_total w (resolve_needs_directory _ _ _ _ Hres))
        as [vs Hvs].
      destruct (resolve_returns_stored w w1 vs commit r Hvs Hres)
        as (-> & v & -> & _).
      rewrite (remove_run w commit v (proj1 Hwf) Hres).
      cbn [snd versions_file]. now apply filter_well_formed.
    + unfold SC.remove. rewrite (bind_Raise _ _ _ _ _ Hres). cbn [snd].
      pose proof (preserves_resolve versions_file commit w) as Hsame.
      rewrite Hres in Hsame. cbn [snd] in Hsame. now rewrite Hsame.
  - intros self commit.
    assert (Hsame : versions_file (snd (SC.apply self commit w))
                    = versions_file w).
    { apply (fun H => H w).
      change (preserves versions_file (SC.apply self commit)).
      unfold SC.apply. frame;
        first [apply preserves_clear|apply preserves_copy_back];
        apply tree_blind_versions_file. }
    now rewrite Hsame.
Qed.

Lemma log_stays_well_formed_witness :
  well_formed_log (versions_file two_commits) /\
  well_formed_log
    (versions_file (snd (Monitor.run 1 noon8 "Hello" two_commits))) /\
  well_formed_log (versions_file (snd (SC.remove "H" two_commits))).
Proof.
  assert (Hwf : well_formed_log (versions_file two_commits)).
  { split.
    - vm_compute. repeat constructor; simpl; intuition discriminate.
    - intros k v [[= <- <-]|[[= <- <-]|[]]]; reflexivity. }
  split; [exact Hwf|].
  destruct (log_stays_well_formed two_commits Hwf) as (Hrun & Hremove & _).
  split; [apply Hrun|apply Hremove].
Defined.

(** ** The snapshot a commit makes *)

Lemma store_store {A : Type} (key : string) (x y : A) (d : list (string * A)) :
  store key x (store key y d) = store key x d.
Proof.
  induction d as [|[k z] d IH]; simpl.
  - now rewrite String.eqb_refl.
  - destruct (String.eqb k key) eqn:E; simpl; rewrite E; [reflexivity|].
    now rewrite IH.
Qed.

Lemma store_present_keys {A : Type} (key : string) (x y : A)
  (d : list (string * A)) :
  lookup key d = Some y -> map fst (store key x d) = map fst d.
Proof.
  unfold lookup. induction d as [|[k z] d IH]; simpl; [discriminate|].
  destruct (String.eqb k key); simpl; [reflexivity|].
  intros H. f_equal. now apply IH.
Qed.

Lemma stat_snapshot (dir meta : listing) (v : string) (acc : listing)
  (rest : list string) (w : world) :
  directory w = with_snapshot dir meta v acc ->
  stat (".tbsc" :: v :: rest) (root w) = stat rest (Dir acc).
Proof.
  intros Hd. unfold root. rewrite Hd. unfold with_snapshot.
  cbn [stat]. now rewrite !lookup_store_same.
Qed.

Lemma lookup_with_snapshot (dir meta : listing) (v : string) (acc : listing)
  (filename : string) :
  filename <> ".tbsc" ->
  lookup filename (with_snapshot dir meta v acc) = lookup filename dir.
Proof. intros Hne. unfold with_snapshot. now apply lookup_store_other. Qed.

(** A write into the snapshot directory. *)
Lemma change_snapshot (dir meta : listing) (v : string) (acc : listing)
  (g : listing -> listing) (w : world) :
  directory w = with_snapshot dir meta v acc ->
  change [".tbsc"; v] g w
  = (Return tt,
     mkWorld (with_snapshot dir meta v (g acc)) (versions_file w) (last_file w)).
Proof.
  intros Hd. unfold change, bind, os_stat.
  rewrite (stat_snapshot dir meta v acc [] w Hd). cbn [stat].
  unfold root. rewrite Hd. unfold with_snapshot. cbn [modify].
  rewrite !lookup_store_same. cbn [modify]. now rewrite !store_store.
Qed.

Lemma contains_tbsc_ne (filename : string) :
  contains ".tbsc" filename = false -> filename <> ".tbsc".
Proof. intros H ->. discriminate. Qed.

(** One turn of the loop of [_commit], for an entry that is not yet in the
    snapshot. *)
Lemma commit_step (dir meta : listing) (v : string) (acc : listing)
  (filename : string) (x : node) (w : world) :
  directory w = with_snapshot dir meta v acc ->
  contains ".tbsc" filename = false ->
  lookup filename dir = Some x ->
  lookup filename acc = None ->
  (f <- is_file [filename] ;;
   if f then copy2 [] filename [".tbsc"; v]
   else
     d <- is_dir [filename] ;;
     when d (copytree [filename] [".tbsc"; v] filename)) w
  = (Return tt,
     mkWorld (with_snapshot dir meta v (acc ++ [(filename, x)]))
       (versions_file w) (last_file w)).
Proof.
  intros Hd Htbsc Hx Hnew.
  pose proof (contains_tbsc_ne filename Htbsc) as Hne.
  assert (Htop : stat [filename] (root w) = Return x).
  { rewrite stat_top, Hd, lookup_with_snapshot by exact Hne. now rewrite Hx. }
  assert (Hvd : stat [".tbsc"; v] (root w) = Return (Dir acc)).
  { now rewrite (stat_snapshot dir meta v acc [] w Hd). }
  assert (Hdst : stat [".tbsc"; v; filename] (root w) = Raise FileNotFoundError).
  { rewrite (stat_snapshot dir meta v acc [filename] w Hd).
    cbn [stat]. now rewrite Hnew. }
  unfold bind at 1. unfold is_file at 1. rewrite Htop.
  destruct x as [data|es].
  - unfold copy2. cbn [app]. unfold bind at 1. unfold os_stat at 1.
    rewrite Htop. unfold bind at 1. unfold is_dir at 1. rewrite Hvd.
    cbn [app]. unfold bind at 1. unfold is_dir at 1. rewrite Hdst.
    cbn [removelast last]. unfold write.
    rewrite (change_snapshot dir meta v acc _ w Hd).
    now rewrite store_absent.
  - unfold bind at 1. unfold is_dir at 1. rewrite Htop. cbn [when].
    unfold copytree. unfold bind at 1. unfold os_stat at 1. rewrite Htop.
    cbn [app makedirs]. unfold bind at 1. unfold bind at 1.
    unfold exists_ at 1.
    assert (Hm : stat [".tbsc"] (root w)
                 = Return (Dir (store v (Dir acc) meta))).
    { unfold root. rewrite Hd. unfold with_snapshot. cbn [stat].
      now rewrite lookup_store_same. }
    rewrite Hm. cbn [negb when]. unfold bind at 1. unfold ret at 1.
    unfold bind at 1. unfold exists_ at 1. rewrite Hvd. cbn [negb when].
    unfold bind at 1. unfold ret at 1.
    unfold os_mkdir. unfold bind at 1. unfold os_stat at 1. rewrite Hvd.
    rewrite Hnew. rewrite (change_snapshot dir meta v acc _ w Hd).
    unfold write. erewrite (change_snapshot dir meta v) by reflexivity.
    cbn [versions_file last_file]. now rewrite store_last.
Qed.

Lemma commit_loop (dir meta : listing) (v : string) (todo acc : listing)
  (w : world) :
  directory w = with_snapshot dir meta v acc ->
  (forall e, In e todo -> lookup (fst e) dir = Some (snd e)) ->
  NoDup (map fst todo) ->
  (forall c, In c (map fst todo) -> lookup c acc = None) ->
  for_each (map fst todo) (fun filename =>
    if contains ".tbsc" filename then ret tt
    else
      f <- is_file [filename] ;;
      if f then copy2 [] filename [".tbsc"; v]
      else
        d <- is_dir [filename] ;;
        when d (copytree [filename] [".tbsc"; v] filename)) w
  = (Return tt,
     mkWorld (with_snapshot dir meta v (acc ++ committed todo))
       (versions_file w) (last_file w)).
Proof.
  revert acc w. induction todo as [|[c x] todo IH];
    intros acc w Hd Hdir Hnd Hnew.
  - simpl. unfold ret. rewrite app_nil_r, <- Hd. now rewrite world_eta.
  - cbn [map fst for_each]. inversion Hnd as [|? ? Hc Hnd']; subst.
    unfold committed. cbn [filter fst].
    destruct (contains ".tbsc" c) eqn:Etbsc; cbn [negb].
    + unfold bind at 1. unfold ret at 1.
      apply IH; auto.
      * intros e He. apply Hdir. now right.
      * intros c' Hc'. apply Hnew. now right.
    + rewrite (bind_Return _ _ _ _ _
                 (commit_step dir meta v acc c x w Hd Etbsc
                    (Hdir (c, x) (or_introl eq_refl))
                    (Hnew c (or_introl eq_refl)))).
      rewrite (IH (acc ++ [(c, x)])); cbn [directory versions_file last_file].
      * now rewrite <- app_assoc.
      * reflexivity.
      * intros e He. apply Hdir. now right.
      * exact Hnd'.
      * intros c' Hc'. rewrite lookup_app, (Hnew c' (or_intror Hc')).
        rewrite lookup_single.
        destruct (String.eqb_spec c c') as [->|Hne]; [contradiction|reflexivity].
Qed.

(** [_commit] into a snapshot directory that does not exist yet. *)
Lemma commit_fresh (meta : listing) (v : string) (w : world) :
  lookup ".tbsc" (directory w) = Some (Dir meta) ->
  lookup v meta = None ->
  NoDup (map fst (directory w)) ->
  Monitor._commit [".tbsc"; v] w
  = (Return tt,
     mkWorld (with_snapshot (directory w) meta v (committed (directory w)))
       (versions_file w) (last_file w)).
Proof.
  intros Hmeta Hv Hnd. unfold Monitor._commit.
  unfold bind at 1. unfold exists_ at 1. unfold root. cbn [stat].
  rewrite Hmeta, Hv. cbn [negb when makedirs app].
  unfold bind at 1. unfold bind at 1. unfold bind at 1.
  unfold exists_ at 1. unfold root. cbn [stat]. rewrite Hmeta.
  cbn [negb when]. unfold ret at 1.
  unfold os_mkdir. unfold bind at 1. unfold os_stat at 1. unfold root.
  cbn [stat]. rewrite Hmeta, Hv.
  unfold change. unfold bind at 1. unfold os_stat at 1. unfold root.
  cbn [stat]. rewrite Hmeta. cbn [modify]. rewrite Hmeta. cbn [modify].
  set (w1 := mkWorld _ _ _).
  assert (Hd : directory w1 = with_snapshot (directory w) meta v []).
  { unfold w1, with_snapshot. cbn [directory].
    now rewrite (store_absent v (Dir []) meta Hv). }
  unfold bind at 1. unfold listdir at 1. unfold bind at 1.
  unfold os_stat at 1. cbn [stat root]. unfold ret at 1.
  rewrite Hd. unfold with_snapshot at 1.
  rewrite (store_present_keys _ _ _ _ Hmeta).
  rewrite (commit_loop (directory w) meta v (directory w) [] w1 Hd);
    [reflexivity| |exact Hnd|reflexivity].
  intros [c x] Hin. now apply lookup_unique.
Qed.

(** X14. A commit into a new snapshot directory is complete: when the
    metadata directory holds nothing under the name yet and the working
    directory lists each name once, [_commit] returns and the snapshot holds
    every top-level entry whose name does not contain [.tbsc], as it is, in
    the order of the listing; the working files, the other snapshots and both
    databases are as they were. *)
Theorem commit_snapshot_complete (meta : listing) (v : string) (w : world) :
  lookup ".tbsc" (directory w) = Some (Dir meta) ->
  lookup v meta = None ->
  NoDup (map fst (directory w)) ->
  exists w',
    Monitor._commit [".tbsc"; v] w = (Return tt, w') /\
    peek [".tbsc"; v] w' = Some (Dir (committed (directory w))) /\
    (forall filename, filename <> ".tbsc" ->
       lookup filename (directory w') = lookup filename (directory w)) /\
    (forall u, u <> v -> peek [".tbsc"; u] w' = peek [".tbsc"; u] w) /\
    versions_file w' = versions_file w /\
    last_file w' = last_file w.
Proof.
  intros Hmeta Hv Hnd. eexists.
  split; [exact (commit_fresh meta v w Hmeta Hv Hnd)|].
  split; [|split; [|split; [|split]]]; try reflexivity.
  - unfold peek, peek_in.
    now erewrite (stat_snapshot (directory w) meta v) by reflexivity.
  - intros filename Hne. cbn [directory]. now apply lookup_with_snapshot.
  - intros u Hu. unfold peek, peek_in, root. cbn [directory].
    unfold with_snapshot. cbn [stat].
    rewrite lookup_store_same, Hmeta. now rewrite lookup_store_other.
Qed.

Lemma commit_snapshot_complete_witness :
  lookup ".tbsc" (directory (prepared notes_tree)) = Some (Dir []) /\
  exists w',
    Monitor._commit [".tbsc"; "commit"] (prepared notes_tree) = (Return tt, w') /\
    map fst (directory (prepared notes_tree))
    = ["notes.tbsc.txt"; "FILE"; ".tbsc"] /\
    peek [".tbsc"; "commit"] w' = Some (Dir [("FILE", File "x")]).
Proof.
  split; [reflexivity|].
  destruct (commit_snapshot_complete [] "commit" (prepared notes_tree)
              eq_refl eq_refl) as (w' & Hrun & Hsnap & _).
  - vm_compute. repeat constructor; simpl; intuition discriminate.
  - exists w'. split; [exact Hrun|]. split; [reflexivity|exact Hsnap].
Defined.

(** ** A commit and its revert *)

Lemma store_NoDup {A : Type} (key : string) (x : A) (d : list (string * A)) :
  NoDup (map fst d) -> NoDup (map fst (store key x d)).
Proof.
  intros Hnd. rewrite store_keys.
  destruct (existsb (String.eqb key) (map fst d)) eqn:E; [exact Hnd|].
  apply NoDup_app; [exact Hnd|repeat constructor; intros []|].
  intros k Hk [<-|[]]. apply not_true_iff_false in E. apply E.
  apply existsb_exists. exists key. split; [exact Hk|apply String.eqb_refl].
Qed.

(** A check that decides to commit under a name that is new in the metadata
    directory: it returns, and this is the world it leaves. *)
Lemma run_commit_fresh (frequency : Z) (now : datetime) (c : string)
  (w : world) (meta : listing) :
  lookup ".tbsc" (directory w) = Some (Dir meta) ->
  lookup (strftime now) meta = None ->
  NoDup (map fst (directory w)) ->
  fst (Monitor._should_backup frequency now c w) = Return true ->
  Monitor.run frequency now c w
  = (Return tt,
     mkWorld
       (with_snapshot (directory w) meta (strftime now) (committed (directory w)))
       (store (strftime now) (mkVersion c now (strftime now)) (versions_file w))
       (mkLast (Some c) (Some now) (Some (strftime now)))).
Proof.
  intros Hmeta Hnew Hnd Hdec.
  assert (Hdir : tabasco_directory_exists w) by (now exists meta).
  rewrite run_cases, (prepared_exists w Hdir), Hdec.
  rewrite (bind_Return _ _ _ _ _ (update_writes_last now c w Hdir)).
  set (w2 := mkWorld _ _ _).
  assert (Hdir2 : tabasco_directory_exists w2) by exact Hdir.
  unfold except_FileExistsError. rewrite (backup_run now c w2 Hdir2).
  set (w3 := mkWorld _ _ _).
  now rewrite (commit_fresh meta (strftime now) w3 Hmeta Hnew Hnd).
Qed.

Lemma lookup_committed (filename : string) (dir : listing) :
  contains ".tbsc" filename = false ->
  lookup filename (committed dir) = lookup filename dir.
Proof.
  intros H. unfold committed.
  apply (lookup_filter_keep (fun k => negb (contains ".tbsc" k))).
  now rewrite H.
Qed.

(** X15. A commit and its revert, in a directory whose path holds no
    pattern character of glob. Take a working directory that lists each
    name once and whose dot-named entries are tabasco's own, a version log
    that does not hold the checksum yet, and a check that decides to commit
    under a name that is new. The check returns. Whatever is then done to
    the working files, [apply] of the full checksum returns and leaves, under
    the names that do not begin with a dot, exactly the entries committed:
    every entry of the working directory at the time of the check whose name
    does not contain [.tbsc]. *)
Theorem commit_then_apply_restores
  (self : folder) (frequency : Z) (now : datetime) (c : string) (w : world)
  (meta : listing) (w2 : world) :
  has_magic (folder_path self) = false ->
  lookup ".tbsc" (directory w) = Some (Dir meta) ->
  lookup (strftime now) meta = None ->
  NoDup (map fst (directory w)) ->
  (forall filename, In filename (map fst (directory w)) ->
     contains ".tbsc" filename = false -> ishidden filename = false) ->
  NoDup (map fst (versions_file w)) ->
  (forall k r, In (k, r) (versions_file w) -> checksum r <> c) ->
  fst (Monitor._should_backup frequency now c w) = Return true ->
  versions_file w2 = versions_file (snd (Monitor.run frequency now c w)) ->
  lookup ".tbsc" (directory w2)
  = lookup ".tbsc" (directory (snd (Monitor.run frequency now c w))) ->
  fst (Monitor.run frequency now c w) = Return tt /\
  exists w3,
    SC.apply self c w2 = (Return tt, w3) /\
    directory w3
    = filter (fun e => ishidden (fst e)) (directory w2)
      ++ committed (directory w) /\
    (forall filename, ishidden filename = false ->
       lookup filename (directory w3)
       = lookup filename (committed (directory w))) /\
    (forall filename, ishidden filename = false ->
       contains ".tbsc" filename = false ->
       lookup filename (directory w3) = lookup filename (directory w)).
Proof.
  intros Hplain Hmeta Hnew Hnd Hvis Hlog Hfresh Hdec.
  rewrite (run_commit_fresh frequency now c w meta Hmeta Hnew Hnd Hdec).
  cbn [fst snd versions_file directory]. intros Hv2 Hm2.
  split; [reflexivity|].
  set (snap := committed (directory w)) in *.
  set (rec := mkVersion c now (strftime now)) in *.
  unfold with_snapshot in Hm2. rewrite lookup_store_same in Hm2.
  assert (Hdir2 : tabasco_directory_exists w2) by (eexists; exact Hm2).
  assert (Hvs : SC.versions w2 = (Return (map snd (versions_file w2)), w2)).
  { apply versions_records; [exact Hdir2|]. rewrite Hv2. now apply store_NoDup. }
  assert (Hrec : In rec (map snd (versions_file w2))).
  { rewrite Hv2. apply in_map_iff. exists (strftime now, rec).
    split; [reflexivity|]. apply lookup_In, lookup_store_same. }
  destruct (resolve_matched w2 _ c rec Hvs Hrec (prefix_refl c))
    as (v & Hres & Hv & _ & Hcv & Hleast).
  assert (Hvrec : v = rec).
  { assert (Hc : checksum v = c).
    { apply String.leb_antisym; [|exact Hcv].
      apply (Hleast rec Hrec). apply leb_refl. }
    rewrite Hv2 in Hv. apply in_map_iff in Hv.
    destruct Hv as ([k r] & Hr & Hin). simpl in Hr. subst r.
    apply store_In in Hin. destruct Hin as [[_ ->]|Hin]; [reflexivity|].
    exfalso. exact (Hfresh k v Hin Hc). }
  subst v.
  set (kept := filter (fun e => ishidden (fst e)) (directory w2)).
  assert (Hsnapdup : NoDup (map fst snap)).
  { unfold snap, committed. now apply NoDup_filter_keys. }
  assert (Hsnapvis : forall filename, In filename (map fst snap) ->
                       ishidden filename = false).
  { intros filename Hin. apply in_map_iff in Hin.
    destruct Hin as (e & <- & He). unfold snap, committed in He.
    apply filter_In in He. destruct He as [He Ht].
    apply Hvis; [now apply in_map|]. now apply negb_true_iff in Ht. }
  assert (Hlook : forall filename, ishidden filename = false ->
            lookup filename (kept ++ snap) = lookup filename snap).
  { intros filename Eh. rewrite lookup_app. unfold kept.
    now rewrite (lookup_filter_drop ishidden) by exact Eh. }
  exists (mkWorld (kept ++ snap) (versions_file w2) (last_file w2)).
  split; [|split; [reflexivity|split]].
  - rewrite (apply_after_resolve self w2 c rec Hplain Hres). fold kept.
    set (w2c := mkWorld kept (versions_file w2) (last_file w2)).
    assert (Hs : stat [".tbsc"; name rec] (root w2c) = Return (Dir snap)).
    { unfold w2c, kept. rewrite stat_cleared by reflexivity.
      unfold root. cbn [stat name rec]. rewrite Hm2.
      now rewrite lookup_store_same. }
    unfold SC._copy_to_working_directory.
    unfold bind at 1. unfold listdir at 1. unfold bind at 1.
    unfold os_stat at 1. rewrite Hs. unfold ret at 1.
    rewrite (copy_back_loop [".tbsc"; name rec] snap snap w2c);
      [reflexivity|discriminate|exact Hs| |exact Hsnapdup|].
    + intros [k x] Hin. now apply lookup_unique.
    + intros k Hk. cbn [directory w2c]. unfold kept.
      apply (lookup_filter_drop ishidden). now apply Hsnapvis.
  - cbn [directory]. exact Hlook.
  - cbn [directory]. intros filename Eh Ht. rewrite (Hlook filename Eh).
    now apply lookup_committed.
Qed.

Lemma commit_then_apply_restores_witness :
  fst (Monitor._should_backup 300 noon "Hello" (prepared fresh_tree))
  = Return true /\
  map fst (directory (prepared fresh_tree)) = ["FILE"; ".tbsc"] /\
  map fst (directory dotfile_world) = ["FILE"; ".tbsc"; ".env"; "BADFILE"] /\
  exists w3,
    SC.apply temp "Hello" dotfile_world = (Return tt, w3) /\
    directory w3
    = filter (fun e => ishidden (fst e)) (directory dotfile_world)
      ++ [("FILE", File "x")].
Proof.
  split; [reflexivity|]. split; [reflexivity|]. split; [reflexivity|].
  destruct (commit_then_apply_restores temp 300 noon "Hello"
              (prepared fresh_tree) [] dotfile_world)
    as (_ & w3 & Hrun & Hdir & _); try reflexivity.
  - vm_compute. repeat constructor; simpl; intuition discriminate.
  - intros filename [<-|[<-|[]]]; [reflexivity|discriminate].
  - constructor.
  - intros k r [].
  - exists w3. split; [exact Hrun|exact Hdir].
Defined.

(** ** The registry of monitored directories *)

Lemma host_eta (h : host) : mkHost (files h) (monitored_folders h) = h.
Proof. now destruct h. Qed.

Lemma delete_appended {A : Type} (key : string) (x : A) (d : list (string * A)) :
  lookup key d = None -> delete key (d ++ [(key, x)]) = d.
Proof.
  intros H. unfold delete. rewrite filter_app. cbn [filter fst].
  rewrite String.eqb_refl. cbn [negb]. rewrite app_nil_r.
  exact (delete_absent key d H).
Qed.

(** X16. Registering and unregistering. When the tabasco folder is there,
    the directory exists and is not registered yet, [monitor] returns and the
    registry then lists the old directories and the new one with its time;
    [unmonitor] of the same directory then returns and gives back the
    host exactly as it was, and a second [unmonitor] raises [KeyError]. *)
Theorem monitor_then_unmonitor
  (tabasco_folder directory : list string) (date : datetime) (h : host)
  (es : listing) :
  Manager.db_open tabasco_folder h = Return tt ->
  stat directory (Dir (files h)) = Return (Dir es) ->
  lookup (Manager.str directory) (monitored_folders h) = None ->
  exists h1,
    Manager.monitor tabasco_folder directory date h = (Return tt, h1) /\
    (exists l,
       Manager.iter tabasco_folder h1 = Return l /\
       Permutation l ((Manager.str directory, date) :: monitored_folders h)) /\
    Manager.unmonitor tabasco_folder directory h1 = (Return tt, h) /\
    Manager.unmonitor tabasco_folder directory h
    = (Raise (KeyError (Manager.str directory)), h).
Proof.
  intros Hdb Hdir Hnew.
  exists (mkHost (files h)
            (monitored_folders h ++ [(Manager.str directory, date)])).
  assert (Hdb1 : forall db, Manager.db_open tabasco_folder (mkHost (files h) db)
                            = Return tt) by (intros db; exact Hdb).
  split; [|split; [|split]].
  - unfold Manager.monitor. rewrite Hdir, Hdb, Hnew.
    now rewrite store_absent.
  - exists (monitored_folders h ++ [(Manager.str directory, date)]). split.
    + unfold Manager.iter. now rewrite Hdb1.
    + apply Permutation_sym, Permutation_cons_append.
  - unfold Manager.unmonitor. rewrite Hdb1. cbn [monitored_folders files].
    rewrite lookup_app, Hnew, lookup_single, String.eqb_refl.
    rewrite delete_appended by exact Hnew. now rewrite host_eta.
  - unfold Manager.unmonitor. now rewrite Hdb, Hnew.
Qed.

Lemma monitor_then_unmonitor_witness :
  Manager.db_open [".tbsc.temp"] temp_host = Return tt /\
  exists h1,
    Manager.monitor [".tbsc.temp"] ["temp"] noon temp_host = (Return tt, h1) /\
    (exists l, Manager.iter [".tbsc.temp"] h1 = Return l /\
               Permutation l [("temp", noon)]) /\
    Manager.unmonitor [".tbsc.temp"] ["temp"] h1 = (Return tt, temp_host).
Proof.
  split; [reflexivity|].
  destruct (monitor_then_unmonitor [".tbsc.temp"] ["temp"] noon temp_host []
              eq_refl eq_refl eq_refl) as (h1 & Hm & Hi & Hu & _).
  exists h1. split; [exact Hm|split; [exact Hi|exact Hu]].
Defined.

(** X17. A directory is registered once. After [monitor] has returned, a
    second [monitor] of the same directory raises [FileExistsError] whatever
    its date, and changes nothing: the registry keeps the first time. *)
Theorem monitor_twice_rejected
  (tabasco_folder directory : list string) (date date' : datetime)
  (h h1 : host) :
  Manager.monitor tabasco_folder directory date h = (Return tt, h1) ->
  Manager.monitor tabasco_folder directory date' h1 = (Raise FileExistsError, h1)
  /\ lookup (Manager.str directory) (monitored_folders h1) = Some date.
Proof.
  unfold Manager.monitor.
  destruct (stat directory (Dir (files h))) as [[data|es]|e] eqn:Hdir;
    try discriminate.
  destruct (Manager.db_open tabasco_folder h) as [[]|e] eqn:Hdb;
    [|discriminate].
  destruct (lookup (Manager.str directory) (monitored_folders h)) eqn:Hnew;
    [discriminate|].
  intros [= <-]. cbn [files monitored_folders].
  assert (Hdb1 : Manager.db_open tabasco_folder
                   (mkHost (files h)
                      (store (Manager.str directory) date (monitored_folders h)))
                 = Return tt) by exact Hdb.
  rewrite Hdir, Hdb1, lookup_store_same. split; reflexivity.
Qed.

Lemma monitor_twice_rejected_witness :
  exists h1,
    Manager.monitor [".tbsc.temp"] ["temp"] noon temp_host = (Return tt, h1) /\
    Manager.monitor [".tbsc.temp"] ["temp"] noon8 h1 = (Raise FileExistsError, h1) /\
    lookup "temp" (monitored_folders h1) = Some noon.
Proof.
  eexists. split; [reflexivity|].
  exact (monitor_twice_rejected [".tbsc.temp"] ["temp"] noon noon8 temp_host _
           eq_refl).
Defined.

(** X18. What [monitor] refuses, and what the registry keeps. A path that
    does not exist is refused with [FileNotFoundError] and a file with
    [NotADirectoryError], before the registry is opened; a call of [monitor]
    or [unmonitor] that raises changes nothing; and a registry that lists
    each directory once lists each directory once after every call of
    either. *)
Theorem registry_stays_consistent
  (tabasco_folder directory : list string) (date : datetime) (h : host) :
  ((forall n, stat directory (Dir (files h)) <> Return n) ->
   Manager.monitor tabasco_folder directory date h = (Raise FileNotFoundError, h))
  /\
  ((exists data, stat directory (Dir (files h)) = Return (File data)) ->
   Manager.monitor tabasco_folder directory date h
   = (Raise NotADirectoryError, h)) /\
  (forall e,
     fst (Manager.monitor tabasco_folder directory date h) = Raise e ->
     snd (Manager.monitor tabasco_folder directory date h) = h) /\
  (forall e,
     fst (Manager.unmonitor tabasco_folder directory h) = Raise e ->
     snd (Manager.unmonitor tabasco_folder directory h) = h) /\
  (NoDup (map fst (monitored_folders h)) ->
   NoDup (map fst (monitored_folders
                     (snd (Manager.monitor tabasco_folder directory date h))))
   /\
   NoDup (map fst (monitored_folders
                     (snd (Manager.unmonitor tabasco_folder directory h))))).
Proof.
  unfold Manager.monitor, Manager.unmonitor.
  destruct (stat directory (Dir (files h))) as [[data|es]|e0] eqn:Hdir;
    destruct (Manager.db_open tabasco_folder h) as [[]|e1];
    destruct (lookup (Manager.str directory) (monitored_folders h));
    cbn [fst snd monitored_folders];
    repeat split; try reflexivity; try discriminate; try assumption;
    try (intros Hno; exfalso; eapply Hno; reflexivity);
    try (intros [? Hfile]; discriminate Hfile);
    try (now apply store_NoDup);
    try (now apply NoDup_filter_keys).
Qed.

Lemma registry_stays_consistent_witness :
  Manager.monitor [".tbsc.temp"] ["nowhere"] noon temp_host
  = (Raise FileNotFoundError, temp_host) /\
  Manager.monitor [".tbsc.temp"] ["README"] noon temp_host
  = (Raise NotADirectoryError, temp_host).
Proof.
  destruct (registry_stays_consistent [".tbsc.temp"] ["nowhere"] noon temp_host)
    as (Hmissing & _).
  destruct (registry_stays_consistent [".tbsc.temp"] ["README"] noon temp_host)
    as (_ & Hfile & _).
  split.
  - apply Hmissing. intros n; discriminate.
  - apply Hfile. now exists "r".
Defined.

(** ** Resolving and reverting again *)

(** X19. Resolution is stable: the full checksum of the version a prefix
    resolves to resolves to that same version. *)
Theorem resolve_full_checksum_again (w : world) (p : string) (v : Version) :
  SC._version_by_commit_checksum p w = (Return (Some v), w) ->
  SC._version_by_commit_checksum (checksum v) w = (Return (Some v), w).
Proof.
  intros Hres.
  destruct (versions_total w (resolve_needs_directory _ _ _ _ Hres))
    as [vs Hvs].
  assert (Hfind : find (fun x => String.eqb (checksum x) (checksum v)) vs
                  = Some v).
  { rewrite (resolve_run w vs p Hvs) in Hres.
    destruct (index p (sorted (map checksum vs ++ [p]))) as [i|];
      [|discriminate].
    destruct (nth_error (sorted (map checksum vs ++ [p])) (i + 1)) as [c|];
      [|discriminate].
    destruct (startswith c p); [|discriminate].
    injection Hres as Hfind. pose proof (find_some _ _ Hfind) as [_ Hc].
    apply String.eqb_eq in Hc. now rewrite Hc. }
  pose proof (find_some _ _ Hfind) as [Hv _].
  rewrite (resolve_run w vs (checksum v) Hvs).
  destruct (index_sorted_total (map checksum vs) (checksum v)) as [i Hi].
  rewrite Hi.
  destruct (nth_error (sorted (map checksum vs ++ [checksum v])) (i + 1))
    as [c|] eqn:Hnth.
  - destruct (successor_least _ _ _ _ Hi Hnth) as (_ & Hle & Hleast).
    assert (Hc : c = checksum v).
    { apply String.leb_antisym; [|exact Hle].
      apply Hleast; [now apply in_map|apply leb_refl]. }
    subst c. unfold startswith. now rewrite prefix_refl, Hfind.
  - destruct (successor_none _ _ _ Hi Hnth (checksum v)) as [_ Hne];
      [now apply in_map|]. now contradiction Hne.
Qed.

Lemma resolve_full_checksum_again_witness :
  SC._version_by_commit_checksum "H" three_commits
  = (Return (Some (mkVersion "Hello" noon "2017.03.05 - 12.00.00")),
     three_commits) /\
  SC._version_by_commit_checksum "Hello" three_commits
  = (Return (Some (mkVersion "Hello" noon "2017.03.05 - 12.00.00")),
     three_commits).
Proof.
  split; [reflexivity|].
  exact (resolve_full_checksum_again three_commits "H"
           (mkVersion "Hello" noon "2017.03.05 - 12.00.00") eq_refl).
Defined.

Lemma collect_getitem_same_log (w w1 : world) (keys : list string) :
  versions_file w1 = versions_file w ->
  forall vs, collect keys getitem w = (Return vs, w) ->
             collect keys getitem w1 = (Return vs, w1).
Proof.
  intros Hlog. induction keys as [|k keys IH]; intros vs; cbn [collect].
  - unfold ret. intros H. injection H as <-. reflexivity.
  - destruct (lookup k (versions_file w)) as [x|] eqn:Hk.
    + assert (G : getitem k w = (Return x, w)).
      { unfold getitem, bind, get_versions. now rewrite Hk. }
      assert (G1 : getitem k w1 = (Return x, w1)).
      { unfold getitem, bind, get_versions. now rewrite Hlog, Hk. }
      rewrite (bind_Return _ _ _ _ _ G), (bind_Return _ _ _ _ _ G1).
      unfold bind.
      pose proof (preserves_collect (fun w => w) keys getitem
                    (fun x => preserves_getitem (fun w => w) x) w) as Hp.
      destruct (collect keys getitem w) as [[l|e] u] eqn:E; [|discriminate].
      simpl in Hp. subst u. rewrite (IH l eq_refl).
      unfold ret. intros H. injection H as <-. reflexivity.
    + assert (G : getitem k w = (Raise (KeyError k), w)).
      { unfold getitem, bind, get_versions. now rewrite Hk. }
      rewrite (bind_Raise _ _ _ _ _ G). discriminate.
Qed.

Lemma versions_same_log (w w1 : world) (vs : list Version) :
  tabasco_directory_exists w1 ->
  versions_file w1 = versions_file w ->
  SC.versions w = (Return vs, w) -> SC.versions w1 = (Return vs, w1).
Proof.
  intros Hdir1 Hlog Hvs. unfold SC.versions in *.
  rewrite (bind_Return _ _ _ _ _ (shelve_open_ok w1 Hdir1)).
  pose proof (shelve_open_same w) as Hs.
  destruct (shelve_open w) as [[[]|e] u] eqn:E; simpl in Hs; subst u.
  - rewrite (bind_Return _ _ _ _ _ E) in Hvs.
    unfold bind, get_versions in *. rewrite Hlog.
    now apply (collect_getitem_same_log w w1).
  - rewrite (bind_Raise _ _ _ _ _ E) in Hvs. discriminate.
Qed.

(** [apply] when the snapshot holds no dot-named entry: the world it leaves. *)
Lemma apply_visible_run (self : folder) (w : world) (p : string) (v : Version)
  (snap : listing) :
  has_magic (folder_path self) = false ->
  SC._version_by_commit_checksum p w = (Return (Some v), w) ->
  stat [".tbsc"; name v] (root w) = Return (Dir snap) ->
  NoDup (map fst snap) ->
  (forall filename, In filename (map fst snap) -> ishidden filename = false) ->
  SC.apply self p w
  = (Return tt,
     mkWorld (filter (fun e => ishidden (fst e)) (directory w) ++ snap)
       (versions_file w) (last_file w)).
Proof.
  intros Hplain Hres Hsnap Hnd Hvis.
  rewrite (apply_after_resolve self w p v Hplain Hres).
  set (kept := filter (fun e => ishidden (fst e)) (directory w)).
  set (w1 := mkWorld kept (versions_file w) (last_file w)).
  assert (Hs1 : stat [".tbsc"; name v] (root w1) = Return (Dir snap)).
  { unfold w1, kept. now rewrite stat_cleared by reflexivity. }
  unfold SC._copy_to_working_directory.
  unfold bind at 1. unfold listdir at 1. unfold bind at 1.
  unfold os_stat at 1. rewrite Hs1. unfold ret at 1.
  rewrite (copy_back_loop [".tbsc"; name v] snap snap w1);
    [reflexivity|discriminate|exact Hs1| |exact Hnd|].
  - intros [c x] Hin. now apply lookup_unique.
  - intros c Hc. cbn [directory w1]. unfold kept.
    apply (lookup_filter_drop ishidden). now apply Hvis.
Qed.

Lemma filter_none {A : Type} (g : A -> bool) (l : list A) :
  (forall x, In x l -> g x = false) -> filter g l = [].
Proof.
  induction l as [|x l IH]; simpl; intros H; [reflexivity|].
  rewrite (H x (or_introl eq_refl)). apply IH. auto.
Qed.

(** X20. [apply] is idempotent in a directory whose path holds no pattern
    character of glob: when the prefix resolves to a version whose snapshot
    holds no dot-named entry, a second [apply] of the same prefix returns
    and leaves the world the first one left. *)
Theorem apply_twice (self : folder) (w : world) (p : string) (v : Version)
  (snap : listing) :
  has_magic (folder_path self) = false ->
  SC._version_by_commit_checksum p w = (Return (Some v), w) ->
  peek [".tbsc"; name v] w = Some (Dir snap) ->
  NoDup (map fst snap) ->
  (forall filename, In filename (map fst snap) -> ishidden filename = false) ->
  exists w1,
    SC.apply self p w = (Return tt, w1) /\
    SC.apply self p w1 = (Return tt, w1).
Proof.
  intros Hplain Hres Hpeek Hnd Hvis.
  assert (Hsnap : stat [".tbsc"; name v] (root w) = Return (Dir snap)).
  { unfold peek, peek_in in Hpeek.
    destruct (stat [".tbsc"; name v] (root w)); [|discriminate].
    now injection Hpeek as ->. }
  eexists.
  split; [exact (apply_visible_run self w p v snap Hplain Hres Hsnap Hnd Hvis)|].
  set (kept := filter (fun e => ishidden (fst e)) (directory w)).
  set (w1 := mkWorld (kept ++ snap) (versions_file w) (last_file w)).
  assert (Hkept : filter (fun e => ishidden (fst e)) (kept ++ snap) = kept).
  { rewrite filter_app. unfold kept at 1. rewrite filter_twice.
    rewrite (filter_none (fun e => ishidden (fst e)) snap), app_nil_r.
    - apply filter_ext. intros e. apply andb_diag.
    - intros e He. apply Hvis. now apply in_map. }
  assert (Hres1 : SC._version_by_commit_checksum p w1 = (Return (Some v), w1)).
  { destruct (resolve_needs_directory _ _ _ _ Hres) as [meta Hmeta].
    assert (Hdir1 : tabasco_directory_exists w1).
    { exists meta. cbn [directory w1]. rewrite lookup_app. unfold kept.
      rewrite (lookup_filter_keep ishidden) by reflexivity. now rewrite Hmeta. }
    destruct (versions_total w (ex_intro _ meta Hmeta)) as [vs Hvs].
    assert (Hvs1 : SC.versions w1 = (Return vs, w1)).
    { now apply (versions_same_log w w1 vs Hdir1). }
    rewrite (resolve_run w vs p Hvs) in Hres.
    rewrite (resolve_run w1 vs p Hvs1).
    destruct (index p (sorted (map checksum vs ++ [p]))) as [i|];
      [|discriminate].
    destruct (nth_error (sorted (map checksum vs ++ [p])) (i + 1)) as [c|];
      [|discriminate].
    destruct (startswith c p); [|discriminate].
    injection Hres as Hfind. now rewrite Hfind. }
  assert (Hsnap1 : stat [".tbsc"; name v] (root w1) = Return (Dir snap)).
  { unfold root in *. cbn [directory w1]. simpl in Hsnap |- *.
    rewrite lookup_app. unfold kept.
    rewrite (lookup_filter_keep ishidden) by reflexivity.
    destruct (lookup ".tbsc" (directory w)); [exact Hsnap|discriminate]. }
  rewrite (apply_visible_run self w1 p v snap Hplain Hres1 Hsnap1 Hnd Hvis).
  cbn [directory versions_file last_file w1]. now rewrite Hkept.
Qed.

Lemma apply_twice_witness :
  exists w1,
    SC.apply temp "H" dotfile_world = (Return tt, w1) /\
    SC.apply temp "H" w1 = (Return tt, w1) /\
    map fst (directory w1) = [".tbsc"; ".env"; "FILE"].
Proof.
  destruct (apply_twice temp dotfile_world "H"
              (mkVersion "Hello" noon "2017.03.05 - 12.00.00")
              [("FILE", File "x")] eq_refl eq_refl eq_refl)
    as (w1 & H1 & H2).
  - repeat constructor. simpl. tauto.
  - intros filename [<-|[]]. reflexivity.
  - exists w1. repeat split; [exact H1|exact H2|].
    vm_compute in H1. injection H1 as <-. reflexivity.
Defined.

(** ** What the snapshots and the dot-named directories are safe from *)

(** A change inside a directory, seen from a path that leaves the line to
    that directory at the name [a]. *)
Lemma stat_modify_other (pre : list string) (a b : string) (p' q' : list string)
  (g : listing -> listing) (n n' : node) :
  a <> b ->
  modify (pre ++ a :: p') g n = Some n' ->
  stat (pre ++ b :: q') n' = stat (pre ++ b :: q') n.
Proof.
  intros Hne. revert n n'. induction pre as [|x pre IH]; intros n n' Hm.
  - destruct n as [data|es]; [discriminate|]. simpl in Hm |- *.
    destruct (lookup a es) as [child|]; [|discriminate].
    destruct (modify p' g child) as [child'|]; [|discriminate].
    injection Hm as <-. simpl. now rewrite lookup_store_other.
  - destruct n as [data|es]; [discriminate|]. simpl in Hm |- *.
    destruct (lookup x es) as [child|]; [|discriminate].
    destruct (modify (pre ++ a :: p') g child) as [child'|] eqn:Ec;
      [|discriminate].
    injection Hm as <-. simpl. rewrite lookup_store_same.
    now apply IH.
Qed.

Lemma change_peek_other (pre : list string) (a b : string) (p' q' : list string)
  (g : listing -> listing) :
  a <> b ->
  preserves (peek (pre ++ b :: q')) (change (pre ++ a :: p') g).
Proof.
  intros Hne w. unfold change, bind, os_stat.
  destruct (stat (pre ++ a :: p') (root w)) as [[data|es]|e]; simpl;
    try reflexivity.
  destruct (modify (pre ++ a :: p') g (root w)) as [[data|es']|] eqn:Em;
    simpl; try reflexivity.
  unfold peek, peek_in, root at 1. simpl.
  now rewrite (stat_modify_other pre a b p' q' g _ _ Hne Em).
Qed.

Lemma put_versions_peek (q : list string) (db : list (string * Version)) :
  preserves (peek q) (put_versions db).
Proof. intros w. reflexivity. Qed.

Lemma put_last_peek (q : list string) (l : Last) :
  preserves (peek q) (put_last l).
Proof. intros w. reflexivity. Qed.

Lemma os_mkdir_peek_other (pre : list string) (a b c : string)
  (p' q' : list string) :
  a <> b -> preserves (peek (pre ++ b :: q')) (os_mkdir (pre ++ a :: p') c).
Proof. intros Hne. unfold os_mkdir. frame. now apply change_peek_other. Qed.

(** Copying into the directory [pre/c0] shows nothing new at a path
    [pre/u/...] with another name [u]. *)
Lemma copy2_peek_sibling (src pre : list string) (c c0 u : string)
  (rest : list string) :
  u <> c0 -> preserves (peek (pre ++ u :: rest)) (copy2 src c (pre ++ [c0])).
Proof.
  intros Hne w. unfold copy2. unfold bind at 1. unfold os_stat at 1.
  destruct (stat (src ++ [c]) (root w)) as [[data|es]|e]; try reflexivity.
  unfold bind at 1. unfold is_dir at 1.
  destruct (match stat (pre ++ [c0]) (root w) with
            | Return (Dir _) => true
            | _ => false
            end).
  - unfold bind at 1. unfold is_dir at 1.
    destruct (match stat ((pre ++ [c0]) ++ [c]) (root w) with
              | Return (Dir _) => true
              | _ => false
              end); [reflexivity|].
    rewrite removelast_last, last_last. unfold write.
    replace (pre ++ [c0]) with (pre ++ c0 :: []) by reflexivity.
    apply change_peek_other. congruence.
  - unfold bind at 1. unfold is_dir at 1.
    destruct (match stat (pre ++ [c0]) (root w) with
              | Return (Dir _) => true
              | _ => false
              end); [reflexivity|].
    rewrite removelast_last, last_last. now apply write_peek_other.
Qed.

Lemma commit_peek_sibling (v u : string) (rest : list string) :
  u <> v ->
  preserves (peek (".tbsc" :: u :: rest)) (Monitor._commit [".tbsc"; v]).
Proof.
  intros Hne. unfold Monitor._commit.
  apply preserves_bind; [frame|intros e].
  apply preserves_bind.
  { apply preserves_when. apply (makedirs_peek [".tbsc"] [] v u rest).
    now left. }
  intros _. apply preserves_bind; [frame|intros filenames].
  apply preserves_for_each. intros filename.
  destruct (contains ".tbsc" filename); [frame|].
  apply preserves_bind; [frame|intros f]. destruct f.
  - now apply (copy2_peek_sibling [] [".tbsc"] filename v u rest).
  - apply preserves_bind; [frame|intros d]. apply preserves_when.
    unfold copytree. apply preserves_bind; [frame|intros n].
    destruct n as [data|es]; [frame|].
    apply preserves_bind.
    + cbn [makedirs app].
      apply preserves_bind; [frame|intros e1].
      apply preserves_bind.
      { apply preserves_when.
        apply (os_mkdir_peek [] ".tbsc" ".tbsc" (u :: rest)).
        right. discriminate. }
      intros _. apply preserves_bind; [frame|intros e2].
      apply preserves_bind.
      { apply preserves_when. apply (os_mkdir_peek [".tbsc"] v u rest).
        now left. }
      intros _.
      apply (os_mkdir_peek_other [".tbsc"] v u filename [] rest). congruence.
    + intros _. unfold write.
      apply (change_peek_other [".tbsc"] v u [] rest). congruence.
Qed.

(** X21. A check of the monitor never changes the snapshot stored under
    another name: whatever [run] decides and however it ends, every path in
    or below a snapshot directory other than the one named after [now] shows
    what it showed before. *)
Theorem run_keeps_other_snapshots (frequency : Z) (now : datetime)
  (c : string) (w : world) (u : string) (rest : list string) :
  u <> strftime now ->
  peek (".tbsc" :: u :: rest) (snd (Monitor.run frequency now c w))
  = peek (".tbsc" :: u :: rest) w.
Proof.
  intros Hne. revert w.
  change (preserves (peek (".tbsc" :: u :: rest)) (Monitor.run frequency now c)).
  unfold Monitor.run.
  apply preserves_bind; [frame|intros e].
  apply preserves_bind.
  { apply preserves_when. apply (os_mkdir_peek [] ".tbsc" ".tbsc" (u :: rest)).
    right. discriminate. }
  intros _. apply preserves_bind.
  { intros w. now rewrite (should_backup_reads frequency now c w). }
  intros b. apply preserves_when. apply preserves_bind.
  { unfold Monitor._update_time_and_hash.
    apply preserves_bind; [frame|intros _]. apply put_last_peek. }
  intros _. apply preserves_except; [|frame].
  unfold Monitor._backup.
  apply preserves_bind; [frame|intros _].
  apply preserves_bind; [frame|intros db].
  apply preserves_bind; [apply put_versions_peek|intros _].
  now apply commit_peek_sibling.
Qed.

Lemma run_keeps_other_snapshots_witness :
  peek [".tbsc"; "2017.03.05 - 12.00.00"; "FILE"]
    (snd (Monitor.run 1 noon4 "Hello2" one_commit))
  = Some (File "x") /\
  peek [".tbsc"; "2017.03.05 - 12.00.04"; "FILE"]
    (snd (Monitor.run 1 noon4 "Hello2" one_commit))
  = Some (File "x").
Proof.
  split; [|reflexivity].
  rewrite (run_keeps_other_snapshots 1 noon4 "Hello2" one_commit
             "2017.03.05 - 12.00.00" ["FILE"]).
  - reflexivity.
  - intros H. vm_compute in H. discriminate H.
Defined.

Lemma keeps_directory_refl (c : string) (w : world) : keeps_directory c w w.
Proof. intros es H. exact H. Qed.

Lemma keeps_directory_trans (c : string) (w1 w2 w3 : world) :
  keeps_directory c w1 w2 -> keeps_directory c w2 w3 -> keeps_directory c w1 w3.
Proof. intros H12 H23 es H. apply H23, H12, H. Qed.

(** Copying a file to the top of the working directory never replaces a
    directory there. *)
Lemma copy2_top_keeps_directory (c : string) (src : list string) (x : string) :
  within (keeps_directory c) (copy2 src x []).
Proof.
  intros w. unfold copy2. unfold bind at 1. unfold os_stat at 1.
  destruct (stat (src ++ [x]) (root w)) as [[data|es0]|e];
    try apply keeps_directory_refl.
  unfold bind at 1. unfold is_dir at 1. cbn [stat root app].
  unfold bind at 1. unfold is_dir at 1. cbn [stat root].
  destruct (lookup x (directory w)) as [[d|es1]|] eqn:Ex;
    try apply keeps_directory_refl.
  - cbn [removelast last]. unfold write. rewrite change_top.
    intros es Hes. cbn [snd directory].
    destruct (String.eqb_spec x c) as [->|Hne]; [congruence|].
    now rewrite lookup_store_other.
  - cbn [removelast last]. unfold write. rewrite change_top.
    intros es Hes. cbn [snd directory].
    destruct (String.eqb_spec x c) as [->|Hne]; [congruence|].
    now rewrite lookup_store_other.
Qed.

(** Copying a tree to the top of the working directory needs a new name. *)
Lemma copytree_top_keeps_directory (c : string) (src : list string) (x : string) :
  within (keeps_directory c) (copytree src [] x).
Proof.
  intros w. unfold copytree. unfold bind at 1. unfold os_stat at 1.
  destruct (stat src (root w)) as [[data|es0]|e];
    try apply keeps_directory_refl.
  cbn [makedirs app]. unfold bind at 1. unfold os_mkdir at 1.
  unfold bind at 1. unfold os_stat at 1. cbn [stat root].
  destruct (lookup x (directory w)) as [child|] eqn:Ex;
    [apply keeps_directory_refl|].
  rewrite change_top. unfold write. rewrite change_top.
  intros es Hes. cbn [snd directory].
  destruct (String.eqb_spec x c) as [->|Hne]; [congruence|].
  rewrite lookup_store_other by congruence.
  rewrite lookup_app. now rewrite Hes.
Qed.

Lemma copy_back_keeps_directory (c : string) (version_path : list string) :
  within (keeps_directory c) (SC._copy_to_working_directory version_path).
Proof.
  pose proof (keeps_directory_refl c) as Hrefl.
  pose proof (keeps_directory_trans c) as Htrans.
  unfold SC._copy_to_working_directory. within_frame.
  - apply copy2_top_keeps_directory.
  - apply copytree_top_keeps_directory.
Qed.

(** X22. [apply] never changes a dot-named directory of the working
    directory, the metadata directory with every snapshot among them:
    whatever the prefix resolves to, whatever the snapshot holds and however
    the call ends, the directory is there afterwards with the entries it
    had. *)
Theorem apply_keeps_dot_directories (self : folder) (p : string) (w : world)
  (c : string) (es : listing) :
  ishidden c = true ->
  lookup c (directory w) = Some (Dir es) ->
  lookup c (directory (snd (SC.apply self p w))) = Some (Dir es).
Proof.
  intros Hc Hes.
  pose proof (preserves_resolve (fun w => w) p w) as Hw.
  destruct (SC._version_by_commit_checksum p w) as [[[v|]|e] w'] eqn:Hres;
    simpl in Hw; subst w'.
  - rewrite (apply_after_resolve_cleared self w p v Hres).
    apply (copy_back_keeps_directory c [".tbsc"; name v]).
    cbn [directory]. now rewrite cleared_keeps_hidden.
  - unfold SC.apply. now rewrite (bind_Return _ _ _ _ _ Hres).
  - unfold SC.apply. now rewrite (bind_Raise _ _ _ _ _ Hres).
Qed.

Lemma apply_keeps_dot_directories_witness :
  lookup ".tbsc" (directory (snd (SC.apply temp "H" dotfile_world)))
  = lookup ".tbsc" (directory dotfile_world) /\
  lookup "BADFILE" (directory (snd (SC.apply temp "H" dotfile_world))) = None.
Proof.
  split; [|reflexivity].
  exact (apply_keeps_dot_directories temp "H" dotfile_world ".tbsc" _
           eq_refl eq_refl).
Defined.
